(** * Cross-browser resize-storm differential checker

    A shallow embedding of [tests/e2e/lib/resize_storm_differential.py]:
    signature extraction from JSONL events, the structural diff of two
    signatures, the known-divergence rule file and rule matching, the
    classification of diffs and the roll-up of the verdict.

    Python objects are modelled as follows.
    - A value decoded by [json.loads] is a [json]; an event (a JSON object)
      is a [gmap string json].
    - The dictionaries built by [extract_signature] have a fixed shape and
      hold normalised scalars only: they are records ([RunEnd],
      [ResizeInput], [Frame], [Signature]).
    - A diff is a Python [dict] that [classify_diffs] later extends with new
      keys: it is a [gmap string value].
    - Exceptions are an error monad ([result]).
    - Text is [string] (a sequence of one-byte characters): labels, patterns
      and rule lines are taken to be ASCII. *)

From Stdlib Require Import ZArith Ascii String.
From stdpp Require Import gmap strings list pretty.

Set Warnings "-register-all".
Set Default Proof Using "Type".

Local Open Scope Z_scope.
Local Open Scope string_scope.
Local Open Scope list_scope.

(** ** Exceptions *)

Inductive error : Type :=
  | ValueError (msg : string)
  | TypeError
  | OverflowError
  | KeyError (key : string)
  | IndexError.

Inductive result (A : Type) : Type :=
  | Ok (a : A)
  | Raise (e : error).

Arguments Ok {A} a.
Arguments Raise {A} e.

#[global] Instance result_ret : MRet result := fun A a => Ok a.

#[global] Instance result_bind : MBind result := fun A B k c =>
  match c with
  | Ok a => k a
  | Raise e => Raise e
  end.

(** [for x in l: s = body(s, x)], where the body may raise. *)
Fixpoint for_each {S A : Type} (body : S -> A -> result S) (l : list A) (s : S)
  : result S :=
  match l with
  | [] => Ok s
  | x :: l' => s' ← body s x; for_each body l' s'
  end.

(** ** Python values *)

(** A Python [float]: not-a-number, an infinity, or a finite value, kept as
    the rational it denotes. *)
Inductive pyfloat : Type :=
  | FNan
  | FInf (negative : bool)
  | FFinite (num : Z) (den : positive).

(** What [json.loads] returns. *)
Inductive json : Type :=
  | JNull
  | JBool (b : bool)
  | JInt (n : Z)
  | JFloat (f : pyfloat)
  | JStr (s : string)
  | JList (l : list json)
  | JObj (m : gmap string json).

(** Normalised scalars, as stored in signatures and diffs. *)
Inductive value : Type :=
  | VNone
  | VInt (n : Z)
  | VStr (s : string).

#[global] Instance value_eq_dec : EqDecision value.
Proof. solve_decision. Defined.

(** [a != b] on normalised scalars. *)
Definition py_ne (a b : value) : bool := negb (bool_decide (a = b)).

(** ** Text primitives of the Python runtime *)

(** [str.isspace] on one ASCII character: tab, line feed, vertical tab, form
    feed, carriage return, the separators 0x1c-0x1f, and space. *)
Definition py_isspace (c : ascii) : bool :=
  let n := nat_of_ascii c in
  ((9 <=? n)%nat && (n <=? 13)%nat) || ((28 <=? n)%nat && (n <=? 32)%nat).

(** The whitespace [int()] skips around a literal (C's [isspace]): tab to
    carriage return, and space. *)
Definition c_isspace (c : ascii) : bool :=
  let n := nat_of_ascii c in
  ((9 <=? n)%nat && (n <=? 13)%nat) || (n =? 32)%nat.

Fixpoint lstrip_by (space : ascii -> bool) (s : string) : string :=
  match s with
  | String c s' => if space c then lstrip_by space s' else s
  | EmptyString => EmptyString
  end.

(** A character is kept when it is not a space or when something remains
    after it. *)
Fixpoint rstrip_by (space : ascii -> bool) (s : string) : string :=
  match s with
  | String c s' =>
      match rstrip_by space s' with
      | EmptyString => if space c then EmptyString else String c EmptyString
      | r => String c r
      end
  | EmptyString => EmptyString
  end.

(** [s.strip()] *)
Definition strip (s : string) : string :=
  rstrip_by py_isspace (lstrip_by py_isspace s).

(** [s.split(sep)] for a one-character separator: every occurrence splits,
    empty fields are kept, and the result is never empty. *)
Fixpoint split_go (sep : ascii) (cur : string) (s : string) : list string :=
  match s with
  | EmptyString => [String.rev cur]
  | String c s' =>
      if Ascii.eqb c sep then String.rev cur :: split_go sep EmptyString s'
      else split_go sep (String c cur) s'
  end.

Definition split (sep : ascii) (s : string) : list string :=
  split_go sep EmptyString s.

(** [not s]: only the empty string is false. *)
Definition str_is_empty (s : string) : bool :=
  match s with
  | EmptyString => true
  | String _ _ => false
  end.

(** [s.startswith(c)] for a one-character prefix. *)
Definition startswith (s : string) (c : ascii) : bool :=
  match s with
  | String c' _ => Ascii.eqb c' c
  | EmptyString => false
  end.

Definition tab : ascii := ascii_of_nat 9.

(** [str(n)] and the f-string field [{n}] for an [int]. *)
Definition str_of_int (n : Z) : string := pretty n.

(** ** The builtin [int()] *)

Definition digit_of (c : ascii) : option Z :=
  let n := nat_of_ascii c in
  if ((48 <=? n)%nat && (n <=? 57)%nat) then Some (Z.of_nat n - 48) else None.

(** Default of [sys.get_int_max_str_digits()] (CPython 3.11 and later). *)
Definition int_max_str_digits : nat := 4300.

(** The digits of a decimal literal: one or more digits, single underscores
    allowed between digits only. [prev] tells whether the previous character
    was a digit; [count] counts the digits read. *)
Fixpoint parse_digits (s : string) (acc : Z) (prev : bool) (count : nat)
  : option Z :=
  match s with
  | EmptyString =>
      if prev && (count <=? int_max_str_digits)%nat then Some acc else None
  | String c s' =>
      match digit_of c with
      | Some d => parse_digits s' (10 * acc + d) true (S count)
      | None =>
          if Ascii.eqb c "_" && prev then parse_digits s' acc false count
          else None
      end
  end.

(** [int(s)] for a [str]: surrounding whitespace is ignored, then an optional
    sign, then the digits. [None] stands for [ValueError]. *)
Definition int_of_str (s : string) : option Z :=
  match rstrip_by c_isspace (lstrip_by c_isspace s) with
  | String "-" s' => Z.opp <$> parse_digits s' 0 false 0
  | String "+" s' => parse_digits s' 0 false 0
  | s' => parse_digits s' 0 false 0
  end.

(** [int(value)]: [bool] is a subclass of [int]; a finite float truncates
    towards zero; not-a-number raises [ValueError] and an infinity raises
    [OverflowError]; [None], lists and dicts raise [TypeError]. *)
Definition py_int (v : json) : result Z :=
  match v with
  | JNull => Raise TypeError
  | JBool b => Ok (if b then 1 else 0)
  | JInt n => Ok n
  | JFloat FNan => Raise (ValueError "cannot convert float NaN to integer")
  | JFloat (FInf _) => Raise OverflowError
  | JFloat (FFinite num den) => Ok (Z.quot num (Zpos den))
  | JStr s =>
      match int_of_str s with
      | Some n => Ok n
      | None => Raise (ValueError "invalid literal for int() with base 10")
      end
  | JList _ => Raise TypeError
  | JObj _ => Raise TypeError
  end.

(** ** Typed accessors *)

(** [try: return int(value) / except (TypeError, ValueError): return default]
    with [default = -1]: any other exception propagates. *)
Definition _as_int (v : json) : result Z :=
  match py_int v with
  | Ok n => Ok n
  | Raise TypeError => Ok (-1)
  | Raise (ValueError _) => Ok (-1)
  | Raise e => Raise e
  end.

(** [value if isinstance(value, str) else ""] *)
Definition _as_str (v : json) : string :=
  match v with
  | JStr s => s
  | _ => ""
  end.

(** ** Events *)

(** [event.get(key)]: [None] when the key is absent. *)
Definition get (event : gmap string json) (key : string) : json :=
  default JNull (event !! key).

(** [v == s] for a string constant [s]: only an equal [str] compares equal. *)
Definition eq_str (v : json) (s : string) : bool :=
  match v with
  | JStr s' => String.eqb s' s
  | _ => false
  end.

(** ** Signatures *)

Record RunEnd : Type := {
  status : string;
  outcome : string;
  frames_reported : Z;        (* key "frames" of the run_end summary *)
  checksum_chain : string;
  output_sha256 : string
}.

(** The keys [cols], [rows] and [hash_key] of a resize input; the prefix
    keeps them apart from the fields of [Frame]. *)
Record ResizeInput : Type := {
  ri_cols : Z;
  ri_rows : Z;
  ri_hash_key : string
}.

Record Frame : Type := {
  cols : Z;
  rows : Z;
  frame_hash : string;
  hash_key : string
}.

Record Signature : Type := {
  run_end : RunEnd;
  resize_inputs : list ResizeInput;
  frames : list Frame;
  geometry_sequence : list string
}.

(** First loop of [extract_signature]: every run_end event overwrites the
    variable [run_end]. *)
Definition select_run_end (events : list (gmap string json))
  : option (gmap string json) :=
  fold_left
    (fun run_end event =>
       if eq_str (get event "type") "run_end" then Some event else run_end)
    events None.

(** Body of the second loop: one event appends to [resize_inputs] or to
    [frames], or to neither. *)
Definition collect_event (acc : list ResizeInput * list Frame)
    (event : gmap string json) : result (list ResizeInput * list Frame) :=
  let '(resize_inputs, frames) := acc in
  if eq_str (get event "type") "input" && eq_str (get event "input_type") "resize"
  then
    c ← _as_int (get event "cols");
    r ← _as_int (get event "rows");
    Ok (resize_inputs ++
          [{| ri_cols := c; ri_rows := r;
              ri_hash_key := _as_str (get event "hash_key") |}],
        frames)
  else if eq_str (get event "type") "frame"
  then
    c ← _as_int (get event "cols");
    r ← _as_int (get event "rows");
    Ok (resize_inputs,
        frames ++
          [{| cols := c; rows := r;
              frame_hash := _as_str (get event "frame_hash");
              hash_key := _as_str (get event "hash_key") |}])
  else Ok acc.

(** [f"{cols}x{rows}"] *)
Definition geom_of (c r : Z) : string := str_of_int c +:+ "x" +:+ str_of_int r.

(** Body of the third loop: append unless the list is non-empty and its last
    element is [geom]. *)
Definition push_geometry (geometry_sequence : list string) (frame : Frame)
  : list string :=
  let geom := geom_of (cols frame) (rows frame) in
  match last geometry_sequence with
  | None => geometry_sequence ++ [geom]
  | Some g =>
      if negb (String.eqb g geom) then geometry_sequence ++ [geom]
      else geometry_sequence
  end.

Definition geometry_of_frames (frames : list Frame) : list string :=
  fold_left push_geometry frames [].

Definition extract_signature (events : list (gmap string json))
  : result Signature :=
  match select_run_end events with
  | None => Raise (ValueError "missing run_end event")
  | Some run_end =>
      '(resize_inputs, frames) ← for_each collect_event events ([], []);
      let geometry_sequence := geometry_of_frames frames in
      n ← _as_int (get run_end "frames");
      Ok {| run_end :=
              {| status := _as_str (get run_end "status");
                 outcome := _as_str (get run_end "outcome");
                 frames_reported := n;
                 checksum_chain := _as_str (get run_end "checksum_chain");
                 output_sha256 := _as_str (get run_end "output_sha256") |};
            resize_inputs := resize_inputs;
            frames := frames;
            geometry_sequence := geometry_sequence |}
  end.

(** ** Diffs *)

(** [diffs.append({"class": ..., "path": ..., "expected": ..., "actual": ...,
    "details": ...})] *)
Definition _append_diff (diffs : list (gmap string value))
    (class_name path : string) (expected actual : value) (details : string)
  : list (gmap string value) :=
  diffs ++
    [ <["class" := VStr class_name]>
      (<["path" := VStr path]>
      (<["expected" := expected]>
      (<["actual" := actual]>
      (<["details" := VStr details]> ∅)))) ].

(** [sig["run_end"].get(field)] *)
Definition run_end_get (r : RunEnd) (field : string) : value :=
  if String.eqb field "status" then VStr (status r)
  else if String.eqb field "outcome" then VStr (outcome r)
  else if String.eqb field "frames" then VInt (frames_reported r)
  else if String.eqb field "checksum_chain" then VStr (checksum_chain r)
  else if String.eqb field "output_sha256" then VStr (output_sha256 r)
  else VNone.

(** [l[idx]] *)
Definition getitem {A : Type} (l : list A) (idx : nat) : result A :=
  match l !! idx with
  | Some x => Ok x
  | None => Raise IndexError
  end.

(** [l[-1]] *)
Definition getitem_last {A : Type} (l : list A) : result A :=
  match last l with
  | Some x => Ok x
  | None => Raise IndexError
  end.

(** Truth value of a list: [True] unless it is empty. *)
Definition nonempty {A : Type} (l : list A) : bool :=
  match l with
  | [] => false
  | _ :: _ => true
  end.

(** [len(l)] as a diff value *)
Definition len_value {A : Type} (l : list A) : value :=
  VInt (Z.of_nat (length l)).

Definition check_run_end_field (b t : RunEnd)
    (diffs : list (gmap string value)) (field : string)
  : list (gmap string value) :=
  let expected := run_end_get b field in
  let actual := run_end_get t field in
  if py_ne expected actual
  then _append_diff diffs "run_end_mismatch" ("run_end." +:+ field)
         expected actual "run_end field diverged"
  else diffs.

Definition check_resize_input (baseline_resize target_resize : list ResizeInput)
    (diffs : list (gmap string value)) (idx : nat)
  : result (list (gmap string value)) :=
  left ← getitem baseline_resize idx;
  right ← getitem target_resize idx;
  let diffs :=
    if negb (bool_decide ((ri_cols left, ri_rows left) = (ri_cols right, ri_rows right)))
    then _append_diff diffs "resize_input_geometry"
           ("resize_inputs[" +:+ pretty idx +:+ "].cols_rows")
           (VStr (geom_of (ri_cols left) (ri_rows left)))
           (VStr (geom_of (ri_cols right) (ri_rows right)))
           "resize geometry diverged"
    else diffs in
  let diffs :=
    if negb (String.eqb (ri_hash_key left) (ri_hash_key right))
    then _append_diff diffs "resize_input_hash_key"
           ("resize_inputs[" +:+ pretty idx +:+ "].hash_key")
           (VStr (ri_hash_key left)) (VStr (ri_hash_key right))
           "resize hash_key diverged"
    else diffs in
  Ok diffs.

Definition check_geometry (baseline_geom target_geom : list string)
    (diffs : list (gmap string value)) (idx : nat)
  : result (list (gmap string value)) :=
  b ← getitem baseline_geom idx;
  t ← getitem target_geom idx;
  Ok (if negb (String.eqb b t)
      then _append_diff diffs "geometry_sequence_value"
             ("geometry_sequence[" +:+ pretty idx +:+ "]")
             (VStr b) (VStr t) "unique frame geometry diverged"
      else diffs).

(** [range(n)] *)
Definition range (n : nat) : list nat := seq 0 n.

Definition compare_signatures (baseline_sig target_sig : Signature)
  : result (list (gmap string value)) :=
  let diffs := [] in
  let diffs :=
    fold_left (check_run_end_field (run_end baseline_sig) (run_end target_sig))
      ["status"; "outcome"; "frames"] diffs in
  let baseline_resize := resize_inputs baseline_sig in
  let target_resize := resize_inputs target_sig in
  let diffs :=
    if negb (length baseline_resize =? length target_resize)%nat
    then _append_diff diffs "resize_inputs_length" "resize_inputs.length"
           (len_value baseline_resize) (len_value target_resize)
           "resize input event count diverged"
    else diffs in
  diffs ← for_each (check_resize_input baseline_resize target_resize)
            (range (length baseline_resize `min` length target_resize)) diffs;
  let baseline_geom := geometry_sequence baseline_sig in
  let target_geom := geometry_sequence target_sig in
  let diffs :=
    if negb (length baseline_geom =? length target_geom)%nat
    then _append_diff diffs "geometry_sequence_length" "geometry_sequence.length"
           (len_value baseline_geom) (len_value target_geom)
           "unique frame geometry sequence length diverged"
    else diffs in
  diffs ← for_each (check_geometry baseline_geom target_geom)
            (range (length baseline_geom `min` length target_geom)) diffs;
  let baseline_frames := frames baseline_sig in
  let target_frames := frames target_sig in
  let diffs :=
    if negb (length baseline_frames =? length target_frames)%nat
    then _append_diff diffs "frame_count" "frames.length"
           (len_value baseline_frames) (len_value target_frames)
           "frame event count diverged"
    else diffs in
  if nonempty baseline_frames && nonempty target_frames
  then
    baseline_last ← getitem_last baseline_frames;
    target_last ← getitem_last target_frames;
    let diffs :=
      if negb (bool_decide ((cols baseline_last, rows baseline_last)
                            = (cols target_last, rows target_last)))
      then _append_diff diffs "final_frame_geometry" "frames[-1].cols_rows"
             (VStr (geom_of (cols baseline_last) (rows baseline_last)))
             (VStr (geom_of (cols target_last) (rows target_last)))
             "final frame geometry diverged"
      else diffs in
    let diffs :=
      if negb (String.eqb (hash_key baseline_last) (hash_key target_last))
      then _append_diff diffs "final_frame_hash_key" "frames[-1].hash_key"
             (VStr (hash_key baseline_last)) (VStr (hash_key target_last))
             "final frame hash_key diverged"
      else diffs in
    Ok diffs
  else Ok diffs.

(** ** [fnmatch.fnmatchcase]

    The library function, after CPython's [fnmatch.translate]: [*] matches
    any run of characters, [?] any one character, [[seq]] one character of
    the set and [[!seq]] one character outside it; anything else matches
    itself. The match is anchored at both ends and case-sensitive. *)

Inductive glob_token : Type :=
  | GStar
  | GAny
  | GLit (c : ascii)
  | GSet (negated : bool) (items : list (ascii * ascii)).

(** Characters of a bracket expression once the range hyphens are told
    apart from the literal ones. *)
Inductive class_char : Type :=
  | CLit (c : ascii)
  | CRange.

(** Up to the first ["]"]: the text before it and the text after it. *)
Fixpoint scan_close (l : list ascii) : option (list ascii * list ascii) :=
  match l with
  | [] => None
  | c :: l' =>
      if Ascii.eqb c "]" then Some ([], l')
      else '(stuff, rest) ← scan_close l'; Some (c :: stuff, rest)
  end.

(** The text following a ["["]: a leading ["!"] and then a leading ["]"] do
    not close the bracket. [None] when the bracket is never closed. *)
Definition bracket_split (l : list ascii) : option (list ascii * list ascii) :=
  let with_prefix pre l' :=
    '(stuff, rest) ← scan_close l'; Some (pre ++ stuff, rest) in
  match l with
  | "!"%char :: "]"%char :: l' => with_prefix ["!"%char; "]"%char] l'
  | "!"%char :: l' => with_prefix ["!"%char] l'
  | "]"%char :: l' => with_prefix ["]"%char] l'
  | _ => scan_close l
  end.

(** Split [stuff] at its range hyphens. [skip] characters from here cannot
    be a range hyphen: the first one (two after ["!"]), and the two that
    follow a range hyphen. *)
Fixpoint chunks_go (l : list ascii) (skip : nat) (cur : list ascii)
  : list (list ascii) :=
  match l with
  | [] => [cur]
  | c :: l' =>
      match skip with
      | O =>
          if Ascii.eqb c "-" then cur :: chunks_go l' 2 []
          else chunks_go l' 0 (cur ++ [c])
      | S n => chunks_go l' n (cur ++ [c])
      end
  end.

(** A hyphen that ends [stuff] is literal: it joins the previous chunk. *)
Fixpoint close_chunks (chunks : list (list ascii)) : list (list ascii) :=
  match chunks with
  | [a; []] => [a ++ ["-"%char]]
  | a :: rest => a :: close_chunks rest
  | [] => []
  end.

Definition chunks_of (stuff : list ascii) : list (list ascii) :=
  let k := match stuff with "!"%char :: _ => 2%nat | _ => 1%nat end in
  close_chunks (chunks_go stuff k []).

(** Remove the ranges whose low end lies above the high end, from the right. *)
Fixpoint drop_empty_ranges (chunks : list (list ascii)) : list (list ascii) :=
  match chunks with
  | [] => []
  | a :: rest =>
      match drop_empty_ranges rest with
      | [] => [a]
      | b :: rest' =>
          match last a, b with
          | Some x, y :: b' =>
              if (nat_of_ascii y <? nat_of_ascii x)%nat
              then (removelast a ++ b') :: rest'
              else a :: b :: rest'
          | _, _ => a :: b :: rest'
          end
      end
  end.

(** ['-'.join(chunks)], the joining hyphens being range operators. *)
Fixpoint join_chunks (chunks : list (list ascii)) : list class_char :=
  match chunks with
  | [] => []
  | [a] => CLit <$> a
  | a :: rest => (CLit <$> a) ++ CRange :: join_chunks rest
  end.

Fixpoint class_items (l : list class_char) : list (ascii * ascii) :=
  match l with
  | CLit a :: CRange :: CLit b :: l' => (a, b) :: class_items l'
  | CLit a :: l' => (a, a) :: class_items l'
  | CRange :: l' => class_items l'
  | [] => []
  end.

(** The set a bracket expression stands for. A ["!"] in front negates it,
    also when it comes to the front by the removal of an empty range. *)
Definition class_of (stuff : list ascii) : glob_token :=
  match join_chunks (drop_empty_ranges (chunks_of stuff)) with
  | CLit "!" :: body => GSet true (class_items body)
  | body => GSet false (class_items body)
  end.

(** [skip] characters from here belong to a bracket already translated. *)
Fixpoint translate_go (pat : list ascii) (skip : nat) : list glob_token :=
  match pat with
  | [] => []
  | c :: pat' =>
      match skip with
      | S n => translate_go pat' n
      | O =>
          if Ascii.eqb c "*" then GStar :: translate_go pat' 0
          else if Ascii.eqb c "?" then GAny :: translate_go pat' 0
          else if Ascii.eqb c "[" then
            match bracket_split pat' with
            | None => GLit c :: translate_go pat' 0
            | Some (stuff, _) =>
                class_of stuff :: translate_go pat' (S (length stuff))
            end
          else GLit c :: translate_go pat' 0
      end
  end.

Definition translate (pat : string) : list glob_token :=
  translate_go (list_ascii_of_string pat) 0.

Definition in_class (items : list (ascii * ascii)) (c : ascii) : bool :=
  existsb
    (fun '(lo, hi) =>
       (nat_of_ascii lo <=? nat_of_ascii c)%nat
       && (nat_of_ascii c <=? nat_of_ascii hi)%nat)
    items.

Fixpoint glob_match (toks : list glob_token) (s : list ascii) : bool :=
  match toks with
  | [] => match s with [] => true | _ :: _ => false end
  | GStar :: toks' =>
      (fix star (s : list ascii) : bool :=
         glob_match toks' s
         || match s with [] => false | _ :: s' => star s' end) s
  | GAny :: toks' =>
      match s with [] => false | _ :: s' => glob_match toks' s' end
  | GLit c :: toks' =>
      match s with
      | [] => false
      | c' :: s' => Ascii.eqb c c' && glob_match toks' s'
      end
  | GSet negated items :: toks' =>
      match s with
      | [] => false
      | c' :: s' => xorb negated (in_class items c') && glob_match toks' s'
      end
  end.

(** [fnmatch.fnmatchcase(name, pat)] *)
Definition fnmatchcase (name pat : string) : bool :=
  glob_match (translate pat) (list_ascii_of_string name).

(** ** Known-divergence rules *)

Record KnownDivergence : Type := {
  class_pattern : string;
  left_browser_pattern : string;
  right_browser_pattern : string;
  path_pattern : string;
  rationale : string
}.

(** [s or "*"]: the empty string is false. *)
Definition or_star (s : string) : string :=
  if str_is_empty s then "*" else s.

(** Body of the loop of [parse_known_divergences], for line number [idx]. *)
Definition parse_rule_line (path : string) (rules : list KnownDivergence)
    (numbered : nat * string) : result (list KnownDivergence) :=
  let '(idx, line) := numbered in
  let raw := strip line in
  if str_is_empty raw || startswith raw "#"
  then Ok rules
  else
    let parts := split tab raw in
    if (length parts <? 5)%nat
    then Raise (ValueError
                  (path +:+ ":" +:+ pretty idx +:+
                   ": expected 5 tab-separated fields " +:+
                   "(class, left, right, path_pattern, rationale)"))
    else
      p0 ← getitem parts 0;
      p1 ← getitem parts 1;
      p2 ← getitem parts 2;
      p3 ← getitem parts 3;
      p4 ← getitem parts 4;
      Ok (rules ++
            [{| class_pattern := or_star (strip p0);
                left_browser_pattern := or_star (strip p1);
                right_browser_pattern := or_star (strip p2);
                path_pattern := or_star (strip p3);
                rationale := strip p4 |}]).

(** [enumerate(lines, start=1)] *)
Definition enumerate1 {A : Type} (l : list A) : list (nat * A) :=
  zip (seq 1 (length l)) l.

(** [parse_known_divergences], on the lines of the rule file
    ([path.read_text().splitlines()]). *)
Definition parse_known_divergences (path : string) (lines : list string)
  : result (list KnownDivergence) :=
  for_each (parse_rule_line path) (enumerate1 lines) [].

(** ** Rule matching and classification *)

Definition _match_pair (rule : KnownDivergence) (left right : string) : bool :=
  let forward :=
    fnmatchcase left (left_browser_pattern rule)
    && fnmatchcase right (right_browser_pattern rule) in
  let reverse :=
    fnmatchcase left (right_browser_pattern rule)
    && fnmatchcase right (left_browser_pattern rule) in
  forward || reverse.

(** [diff[key]] used as text: a missing key raises [KeyError], a value that
    is not a [str] makes the matcher raise [TypeError]. *)
Definition getitem_str (diff : gmap string value) (key : string)
  : result string :=
  match diff !! key with
  | Some (VStr s) => Ok s
  | Some _ => Raise TypeError
  | None => Raise (KeyError key)
  end.

(** The inner loop of [classify_diffs]: the rule the loop breaks on, or
    [None] when it runs to the end. *)
Fixpoint find_rule (diff : gmap string value)
    (baseline_browser target_browser : string) (rules : list KnownDivergence)
  : result (option KnownDivergence) :=
  match rules with
  | [] => Ok None
  | rule :: rules' =>
      c ← getitem_str diff "class";
      if negb (fnmatchcase c (class_pattern rule))
      then find_rule diff baseline_browser target_browser rules'
      else
        p ← getitem_str diff "path";
        if negb (fnmatchcase p (path_pattern rule))
        then find_rule diff baseline_browser target_browser rules'
        else if negb (_match_pair rule baseline_browser target_browser)
        then find_rule diff baseline_browser target_browser rules'
        else Ok (Some rule)
  end.

(** [{**diff, "baseline_browser": ..., "target_browser": ...}] *)
Definition with_context (diff : gmap string value)
    (baseline_browser target_browser : string) : gmap string value :=
  <["target_browser" := VStr target_browser]>
    (<["baseline_browser" := VStr baseline_browser]> diff).

(** Body of the outer loop of [classify_diffs]. *)
Definition classify_one (baseline_browser target_browser : string)
    (rules : list KnownDivergence)
    (acc : list (gmap string value) * list (gmap string value))
    (diff : gmap string value)
  : result (list (gmap string value) * list (gmap string value)) :=
  let '(known, unknown) := acc in
  matched_rule ← find_rule diff baseline_browser target_browser rules;
  let diff_with_context := with_context diff baseline_browser target_browser in
  match matched_rule with
  | None => Ok (known, unknown ++ [diff_with_context])
  | Some rule =>
      Ok (known ++
            [<["known_rationale" := VStr (rationale rule)]> diff_with_context],
          unknown)
  end.

Definition classify_diffs (diffs : list (gmap string value))
    (baseline_browser target_browser : string) (rules : list KnownDivergence)
  : result (list (gmap string value) * list (gmap string value)) :=
  for_each (classify_one baseline_browser target_browser rules) diffs ([], []).

(** ** Diffs as objects

    [classify_diffs] once more, with the dictionaries held by reference:
    the store lists the dictionaries of the run by address, and [diffs],
    [known] and [unknown] are lists of addresses. A dictionary display
    [{**d, key: v}] reads [d] and makes a new dictionary. *)

(** The object at an address. *)
Definition deref (store : list (gmap string value)) (ref : nat)
  : result (gmap string value) :=
  getitem store ref.

(** A new object: the store with it, and its address. *)
Definition new_dict (store : list (gmap string value)) (d : gmap string value)
  : list (gmap string value) * nat :=
  (store ++ [d], length store).

Definition classify_one_obj (baseline_browser target_browser : string)
    (rules : list KnownDivergence)
    (st : list (gmap string value) * (list nat * list nat)) (diff : nat)
  : result (list (gmap string value) * (list nat * list nat)) :=
  let '(store, (known, unknown)) := st in
  d ← deref store diff;
  matched_rule ← find_rule d baseline_browser target_browser rules;
  let '(store, diff_with_context) :=
    new_dict store (with_context d baseline_browser target_browser) in
  match matched_rule with
  | None => Ok (store, (known, unknown ++ [diff_with_context]))
  | Some rule =>
      c ← deref store diff_with_context;
      let '(store, known_diff) :=
        new_dict store (<["known_rationale" := VStr (rationale rule)]> c) in
      Ok (store, (known ++ [known_diff], unknown))
  end.

Definition classify_diffs_obj (store : list (gmap string value))
    (diffs : list nat) (baseline_browser target_browser : string)
    (rules : list KnownDivergence)
  : result (list (gmap string value) * (list nat * list nat)) :=
  for_each (classify_one_obj baseline_browser target_browser rules) diffs
    (store, ([], [])).

(** ** The run: one comparison per non-baseline trace *)

(** A [--trace] argument; the [Path] is kept as the text it was made from. *)
Record TraceInput : Type := {
  browser : string;
  path : string
}.

(** [raw.split("=", 1)] when ["="] occurs in [raw]: the text before the
    first ["="] and the text after it. *)
Fixpoint split_first (sep : ascii) (s : string) : option (string * string) :=
  match s with
  | EmptyString => None
  | String c s' =>
      if Ascii.eqb c sep then Some (EmptyString, s')
      else '(a, b) ← split_first sep s'; Some (String c a, b)
  end.

Definition parse_trace_arg (traces : list TraceInput) (raw : string)
  : result (list TraceInput) :=
  match split_first "=" raw with
  | None =>
      Raise (ValueError
               ("invalid --trace value (expected BROWSER=PATH): " +:+ raw))
  | Some (browser_raw, path_raw) =>
      let browser := strip browser_raw in
      let path := strip path_raw in
      if str_is_empty browser
      then Raise (ValueError ("empty browser label in --trace: " +:+ raw))
      else Ok (traces ++ [{| browser := browser; path := path |}])
  end.

Definition parse_trace_args (raw_items : list string)
  : result (list TraceInput) :=
  traces ← for_each parse_trace_arg raw_items [];
  if (length traces <? 2)%nat
  then Raise (ValueError "at least two --trace inputs are required")
  else if negb (bool_decide (NoDup (browser <$> traces)))
  then Raise (ValueError
                "duplicate browser labels in --trace inputs are not allowed")
  else Ok traces.

(** The command-line arguments the run depends on. [mode] is one of
    ["warn"] and ["strict"] (the parser's [choices]). *)
Record Args : Type := {
  trace : list string;
  baseline : string;
  known : string;
  mode : string
}.

Record Comparison : Type := {
  cmp_baseline_browser : string;
  cmp_target_browser : string;
  cmp_total_diffs : nat;
  known_diffs : list (gmap string value);
  unknown_diffs : list (gmap string value);
  cmp_status : string
}.

Record Summary : Type := {
  total_comparisons : nat;
  sum_total_diffs : nat;
  sum_known_diffs : nat;
  sum_unknown_diffs : nat;
  overall_status : string
}.

Record Report : Type := {
  report_mode : string;
  report_baseline_browser : string;
  trace_inputs : list (string * string);
  known_divergence_rules_loaded : nat;
  summary : Summary;
  comparisons : list Comparison
}.

(** The local variables the comparison loop updates. *)
Record Totals : Type := {
  acc_comparisons : list Comparison;
  total_known : nat;
  total_unknown : nat;
  total_diffs : nat
}.

(** [d[key]] on a dictionary keyed by browser label. *)
Definition dict_getitem {A : Type} (d : gmap string A) (key : string)
  : result A :=
  match d !! key with
  | Some x => Ok x
  | None => Raise (KeyError key)
  end.

(** ["warn" if args.mode == "warn" else "fail"] *)
Definition mode_status (mode : string) : string :=
  if String.eqb mode "warn" then "warn" else "fail".

Section Run.

(** The two readers are the boundary of the model: [load_jsonl] gives the
    events of a trace file, [read_lines] the lines of the rule file. *)
Variable load_jsonl : string -> result (list (gmap string json)).
Variable read_lines : string -> result (list string).

(** Body of the loop that fills [signatures]. *)
Definition load_signature (signatures : gmap string Signature)
    (item : string * string) : result (gmap string Signature) :=
  let '(browser, path) := item in
  events ← load_jsonl path;
  sig ← extract_signature events;
  Ok (<[browser := sig]> signatures).

(** Body of the comparison loop. *)
Definition compare_one (mode baseline_browser : string)
    (known_rules : list KnownDivergence)
    (signatures : gmap string Signature) (st : Totals) (browser : string)
  : result Totals :=
  if String.eqb browser baseline_browser then Ok st
  else
    baseline_sig ← dict_getitem signatures baseline_browser;
    target_sig ← dict_getitem signatures browser;
    raw_diffs ← compare_signatures baseline_sig target_sig;
    '(known, unknown) ←
      classify_diffs raw_diffs baseline_browser browser known_rules;
    Ok {| acc_comparisons :=
            acc_comparisons st ++
              [{| cmp_baseline_browser := baseline_browser;
                  cmp_target_browser := browser;
                  cmp_total_diffs := length raw_diffs;
                  known_diffs := known;
                  unknown_diffs := unknown;
                  cmp_status :=
                    if negb (nonempty unknown) then "pass"
                    else mode_status mode |}];
          total_known := (total_known st + length known)%nat;
          total_unknown := (total_unknown st + length unknown)%nat;
          total_diffs := (total_diffs st + length raw_diffs)%nat |}.

(** The [try] block of [main], up to the report it writes. *)
Definition build_report (args : Args) : result Report :=
  traces ← parse_trace_args (trace args);
  baseline_browser ←
    (if str_is_empty (strip (baseline args))
     then first ← getitem traces 0; Ok (browser first)
     else Ok (strip (baseline args)));
  let trace_map := (fun t => (browser t, path t)) <$> traces in
  if negb (bool_decide (baseline_browser ∈ trace_map.*1))
  then Raise (ValueError
                ("baseline browser '" +:+ baseline_browser +:+
                 "' not found in --trace set"))
  else
    known_rules ←
      (if str_is_empty (known args) then Ok []
       else lines ← read_lines (known args);
            parse_known_divergences (known args) lines);
    signatures ← for_each load_signature trace_map ∅;
    st ← for_each
           (compare_one (mode args) baseline_browser known_rules signatures)
           trace_map.*1
           {| acc_comparisons := []; total_known := 0;
              total_unknown := 0; total_diffs := 0 |};
    let overall_status :=
      if (0 <? total_unknown st)%nat then mode_status (mode args)
      else "pass" in
    Ok {| report_mode := mode args;
          report_baseline_browser := baseline_browser;
          trace_inputs := trace_map;
          known_divergence_rules_loaded := length known_rules;
          summary :=
            {| total_comparisons := length (acc_comparisons st);
               sum_total_diffs := total_diffs st;
               sum_known_diffs := total_known st;
               sum_unknown_diffs := total_unknown st;
               overall_status := overall_status |};
          comparisons := acc_comparisons st |}.

End Run.

(** * Statements of the specification

    Definitions worded after the specification, for comparison with the
    code above. *)

(** Geometry collapse: walk the values in order and emit one only when it
    differs from the value emitted just before it, [prev]. *)
Fixpoint collapse_repeats (prev : option string) (l : list string)
  : list string :=
  match l with
  | [] => []
  | g :: l' =>
      if bool_decide (prev = Some g) then collapse_repeats prev l'
      else g :: collapse_repeats (Some g) l'
  end.

Definition frame_geom (f : Frame) : string := geom_of (cols f) (rows f).

(** No entry of the list is followed by an equal one. *)
Definition no_adjacent_repeat (l : list string) : Prop :=
  forall i g, l !! i = Some g -> l !! S i <> Some g.

(** An event with [type == "run_end"]. *)
Definition is_run_end (event : gmap string json) : bool :=
  eq_str (get event "type") "run_end".

(** The run_end summary read off one event. *)
Definition summary_of (event : gmap string json) (r : RunEnd) : Prop :=
  status r = _as_str (get event "status")
  /\ outcome r = _as_str (get event "outcome")
  /\ _as_int (get event "frames") = Ok (frames_reported r)
  /\ checksum_chain r = _as_str (get event "checksum_chain")
  /\ output_sha256 r = _as_str (get event "output_sha256").

(** The integer an integer field is read as: what [int()] converts the value
    to, and the default -1 when the value is absent ([None]), a list, an
    object, not-a-number or a string that is not an integer literal. *)
Definition int_or_default (v : json) : Z :=
  match v with
  | JBool b => if b then 1 else 0
  | JInt n => n
  | JFloat (FFinite num den) => Z.quot num (Zpos den)
  | JStr s => default (-1) (int_of_str s)
  | _ => -1
  end.

(** The string a string field is read as. *)
Definition str_or_default (v : json) : string :=
  match v with
  | JStr s => s
  | _ => ""
  end.

(** A value that is not an infinite float. *)
Definition not_infinite (v : json) : Prop :=
  forall negative, v <> JFloat (FInf negative).

(** No integer field of the event is an infinite float. *)
Definition int_fields_not_infinite (event : gmap string json) : Prop :=
  not_infinite (get event "cols")
  /\ not_infinite (get event "rows")
  /\ not_infinite (get event "frames").

Definition is_resize_input (event : gmap string json) : bool :=
  eq_str (get event "type") "input" && eq_str (get event "input_type") "resize".

Definition is_frame (event : gmap string json) : bool :=
  eq_str (get event "type") "frame".

Definition project_resize_input (event : gmap string json) : ResizeInput :=
  {| ri_cols := int_or_default (get event "cols");
     ri_rows := int_or_default (get event "rows");
     ri_hash_key := str_or_default (get event "hash_key") |}.

Definition project_frame (event : gmap string json) : Frame :=
  {| cols := int_or_default (get event "cols");
     rows := int_or_default (get event "rows");
     frame_hash := str_or_default (get event "frame_hash");
     hash_key := str_or_default (get event "hash_key") |}.

Definition project_run_end (event : gmap string json) : RunEnd :=
  {| status := str_or_default (get event "status");
     outcome := str_or_default (get event "outcome");
     frames_reported := int_or_default (get event "frames");
     checksum_chain := str_or_default (get event "checksum_chain");
     output_sha256 := str_or_default (get event "output_sha256") |}.

(** ** The checks of the diff engine, one list per check *)

(** A diff record. *)
Definition diff_record (class_name path : string) (expected actual : value)
    (details : string) : gmap string value :=
  {[ "class" := VStr class_name; "path" := VStr path;
     "expected" := expected; "actual" := actual; "details" := VStr details ]}.

(** The diff [d] when the check [differ] fires, nothing otherwise. *)
Definition diff_if (differ : bool) (d : gmap string value)
  : list (gmap string value) :=
  if differ then [d] else [].

(** The first check: the scalars [status], [outcome], [frames] of the run_end
    summary, each mismatch a diff of its own. *)
Definition run_end_field_diffs (b t : RunEnd) (field : string)
  : list (gmap string value) :=
  diff_if (negb (bool_decide (run_end_get b field = run_end_get t field)))
    (diff_record "run_end_mismatch" ("run_end." +:+ field)
       (run_end_get b field) (run_end_get t field) "run_end field diverged").

Definition run_end_diffs (b t : RunEnd) : list (gmap string value) :=
  run_end_field_diffs b t "status" ++ run_end_field_diffs b t "outcome"
  ++ run_end_field_diffs b t "frames".

(** A length check. *)
Definition length_diffs {A : Type} (class_name path details : string)
    (l1 l2 : list A) : list (gmap string value) :=
  diff_if (negb (bool_decide (length l1 = length l2)))
    (diff_record class_name path (len_value l1) (len_value l2) details).

(** The per-index checks over the overlapping prefix of two lists, from
    index [idx] on. *)
Fixpoint per_index_diffs {A : Type}
    (check : nat -> A -> A -> list (gmap string value))
    (idx : nat) (l1 l2 : list A) : list (gmap string value) :=
  match l1, l2 with
  | x :: l1', y :: l2' => check idx x y ++ per_index_diffs check (S idx) l1' l2'
  | _, _ => []
  end.

(** The second check, at one index: the geometry and the hash_key, independently. *)
Definition resize_index_diffs (idx : nat) (left right : ResizeInput)
  : list (gmap string value) :=
  diff_if (negb (bool_decide (ri_cols left = ri_cols right
                              /\ ri_rows left = ri_rows right)))
    (diff_record "resize_input_geometry"
       ("resize_inputs[" +:+ pretty idx +:+ "].cols_rows")
       (VStr (geom_of (ri_cols left) (ri_rows left)))
       (VStr (geom_of (ri_cols right) (ri_rows right)))
       "resize geometry diverged")
  ++ diff_if (negb (bool_decide (ri_hash_key left = ri_hash_key right)))
       (diff_record "resize_input_hash_key"
          ("resize_inputs[" +:+ pretty idx +:+ "].hash_key")
          (VStr (ri_hash_key left)) (VStr (ri_hash_key right))
          "resize hash_key diverged").

Definition resize_diffs (b t : list ResizeInput) : list (gmap string value) :=
  length_diffs "resize_inputs_length" "resize_inputs.length"
    "resize input event count diverged" b t
  ++ per_index_diffs resize_index_diffs 0 b t.

(** The third check, at one index. *)
Definition geometry_index_diffs (idx : nat) (b t : string)
  : list (gmap string value) :=
  diff_if (negb (bool_decide (b = t)))
    (diff_record "geometry_sequence_value"
       ("geometry_sequence[" +:+ pretty idx +:+ "]")
       (VStr b) (VStr t) "unique frame geometry diverged").

Definition geometry_diffs (b t : list string) : list (gmap string value) :=
  length_diffs "geometry_sequence_length" "geometry_sequence.length"
    "unique frame geometry sequence length diverged" b t
  ++ per_index_diffs geometry_index_diffs 0 b t.

(** The fourth check: the number of frames, and nothing else of them. *)
Definition frame_count_diffs (b t : list Frame) : list (gmap string value) :=
  length_diffs "frame_count" "frames.length" "frame event count diverged" b t.

(** What the fifth check reads of a signature's frames: the geometry and the
    hash_key of the last one, if any. *)
Definition final_frame (fs : list Frame) : option (Z * Z * string) :=
  (fun f => (cols f, rows f, hash_key f)) <$> last fs.

(** The fifth check: the last frames, when both signatures have one. *)
Definition final_frame_diffs (b t : list Frame) : list (gmap string value) :=
  match final_frame b, final_frame t with
  | Some (bc, br, bk), Some (tc, tr, tk) =>
      diff_if (negb (bool_decide (bc = tc /\ br = tr)))
        (diff_record "final_frame_geometry" "frames[-1].cols_rows"
           (VStr (geom_of bc br)) (VStr (geom_of tc tr))
           "final frame geometry diverged")
      ++ diff_if (negb (bool_decide (bk = tk)))
           (diff_record "final_frame_hash_key" "frames[-1].hash_key"
              (VStr bk) (VStr tk) "final frame hash_key diverged")
  | _, _ => []
  end.

(** What the diff engine reads of a signature. *)
Definition compared_view (s : Signature)
  : RunEnd * list ResizeInput * list string * nat * option (Z * Z * string) :=
  (run_end s, resize_inputs s, geometry_sequence s, length (frames s),
   final_frame (frames s)).

(** The diff carries one of the given class tags. *)
Definition has_class (classes : list string) (d : gmap string value) : Prop :=
  exists c, d !! "class" = Some (VStr c) /\ c ∈ classes.

(** A diff as the diff engine builds them: its class and its path are text. *)
Definition diff_shaped (d : gmap string value) : Prop :=
  exists c p, d !! "class" = Some (VStr c) /\ d !! "path" = Some (VStr p).

(** ** Rule matching as the specification words it *)

(** A rule matches a diff of class [c] and path [p] iff the class pattern
    and the path pattern match and the browser pair matches in either
    orientation. *)
Definition rule_matches (rule : KnownDivergence) (c p : string)
    (baseline target : string) : bool :=
  fnmatchcase c (class_pattern rule)
  && fnmatchcase p (path_pattern rule)
  && ((fnmatchcase baseline (left_browser_pattern rule)
       && fnmatchcase target (right_browser_pattern rule))
      || (fnmatchcase target (left_browser_pattern rule)
          && fnmatchcase baseline (right_browser_pattern rule))).

(** The first rule, in list order, that matches the diff. *)
Definition matching_rule (rules : list KnownDivergence)
    (baseline target : string) (d : gmap string value)
  : option KnownDivergence :=
  match d !! "class", d !! "path" with
  | Some (VStr c), Some (VStr p) =>
      List.find (fun rule => rule_matches rule c p baseline target) rules
  | _, _ => None
  end.

(** The entry of [known] for a diff matched by [rule]. *)
Definition known_entry (baseline target : string) (d : gmap string value)
    (rule : KnownDivergence) : gmap string value :=
  <["known_rationale" := VStr (rationale rule)]> (with_context d baseline target).

(** The entry of [known] a diff gives rise to, if any. *)
Definition known_of (rules : list KnownDivergence) (baseline target : string)
    (d : gmap string value) : option (gmap string value) :=
  known_entry baseline target d <$> matching_rule rules baseline target d.

(** The entry of [unknown] a diff gives rise to, if any. *)
Definition unknown_of (rules : list KnownDivergence) (baseline target : string)
    (d : gmap string value) : option (gmap string value) :=
  match matching_rule rules baseline target d with
  | None => Some (with_context d baseline target)
  | Some _ => None
  end.

(** The address [ref] holds the dictionary [d]. *)
Definition points_to (store : list (gmap string value)) (ref : nat)
    (d : gmap string value) : Prop :=
  store !! ref = Some d.

(** ** Severity of a status *)

(** [pass] is the best status, then [warn], and [fail] is the worst. *)
Definition severity (status : string) : nat :=
  if String.eqb status "pass" then 0
  else if String.eqb status "warn" then 1
  else 2.

(** The status rule of one comparison. *)
Definition status_rule (mode : string) (c : Comparison) : Prop :=
  (cmp_status c = "pass" <-> unknown_diffs c = [])
  /\ (unknown_diffs c <> [] -> cmp_status c = mode_status mode).

(** * Sample traces *)

Definition frame_event (c r : json) (key : string) : gmap string json :=
  {[ "type" := JStr "frame"; "cols" := c; "rows" := r;
     "frame_hash" := JStr "h"; "hash_key" := JStr key ]}.

Definition resize_event (c r : json) (key : string) : gmap string json :=
  {[ "type" := JStr "input"; "input_type" := JStr "resize";
     "cols" := c; "rows" := r; "hash_key" := JStr key ]}.

Definition run_end_event (st : string) (n : json) : gmap string json :=
  {[ "type" := JStr "run_end"; "status" := JStr st;
     "outcome" := JStr "completed"; "frames" := n ]}.

(** Five frames of sizes (80,24), (80,24), (100,30), (100,30), (80,24). *)
Definition storm_events : list (gmap string json) :=
  [ resize_event (JInt 80) (JInt 24) "k0";
    frame_event (JInt 80) (JInt 24) "k0";
    frame_event (JInt 80) (JInt 24) "k0";
    resize_event (JInt 100) (JInt 30) "k1";
    frame_event (JInt 100) (JInt 30) "k1";
    frame_event (JInt 100) (JInt 30) "k1";
    resize_event (JInt 80) (JInt 24) "k2";
    frame_event (JInt 80) (JInt 24) "k2";
    run_end_event "provisional" (JInt 4);
    run_end_event "passed" (JInt 5) ].

Definition storm_signature : Signature :=
  {| run_end :=
       {| status := "passed"; outcome := "completed"; frames_reported := 5;
          checksum_chain := ""; output_sha256 := "" |};
     resize_inputs :=
       [ {| ri_cols := 80; ri_rows := 24; ri_hash_key := "k0" |};
         {| ri_cols := 100; ri_rows := 30; ri_hash_key := "k1" |};
         {| ri_cols := 80; ri_rows := 24; ri_hash_key := "k2" |} ];
     frames :=
       [ {| cols := 80; rows := 24; frame_hash := "h"; hash_key := "k0" |};
         {| cols := 80; rows := 24; frame_hash := "h"; hash_key := "k0" |};
         {| cols := 100; rows := 30; frame_hash := "h"; hash_key := "k1" |};
         {| cols := 100; rows := 30; frame_hash := "h"; hash_key := "k1" |};
         {| cols := 80; rows := 24; frame_hash := "h"; hash_key := "k2" |} ];
     geometry_sequence := ["80x24"; "100x30"; "80x24"] |}.

(** A trace with payload drift: numbers as text, a fractional size, a
    missing field, a null, a list, not-a-number, a non-numeric string. *)
Definition drift_events : list (gmap string json) :=
  [ resize_event (JStr " 80 ") (JFloat (FFinite 49 2)) "k0";
    frame_event (JStr "80") (JBool true) "k0";
    delete "cols" (frame_event JNull (JList [JInt 24]) "k1");
    <["hash_key" := JInt 7]> (frame_event (JFloat FNan) (JStr "wide") "k2");
    run_end_event "passed" JNull ].

Definition drift_signature : Signature :=
  {| run_end :=
       {| status := "passed"; outcome := "completed"; frames_reported := -1;
          checksum_chain := ""; output_sha256 := "" |};
     resize_inputs := [ {| ri_cols := 80; ri_rows := 24; ri_hash_key := "k0" |} ];
     frames :=
       [ {| cols := 80; rows := 1; frame_hash := "h"; hash_key := "k0" |};
         {| cols := -1; rows := -1; frame_hash := "h"; hash_key := "k1" |};
         {| cols := -1; rows := -1; frame_hash := "h"; hash_key := "" |} ];
     geometry_sequence := ["80x1"; "-1x-1"] |}.

(** A frame whose width overflowed to an infinity ([1e999] in the file). *)
Definition overflow_events : list (gmap string json) :=
  [ frame_event (JFloat (FInf false)) (JInt 24) "k0";
    run_end_event "passed" (JInt 1) ].

(** ** Sample rules *)

Definition frame_count_diff : gmap string value :=
  diff_record "frame_count" "frames.length" (VInt 5) (VInt 7)
    "frame event count diverged".

(** The rule of the specification's symmetry example, as it is written. *)
Definition ish_rule : KnownDivergence :=
  {| class_pattern := "*"; left_browser_pattern := "firefoxish*";
     right_browser_pattern := "chromish*"; path_pattern := "*";
     rationale := "repaint cadence differs" |}.

(** The same rule with patterns that the two labels match. *)
Definition cadence_rule : KnownDivergence :=
  {| class_pattern := "frame_*"; left_browser_pattern := "firefox*";
     right_browser_pattern := "chrome*"; path_pattern := "*";
     rationale := "repaint cadence differs" |}.

Definition resize_rule : KnownDivergence :=
  {| class_pattern := "resize_*"; left_browser_pattern := "*";
     right_browser_pattern := "*"; path_pattern := "resize_inputs[[]?].*";
     rationale := "resize batching" |}.

Definition catch_all_rule : KnownDivergence :=
  {| class_pattern := "*"; left_browser_pattern := "*";
     right_browser_pattern := "*"; path_pattern := "*";
     rationale := "anything goes" |}.

Definition resize_length_diff : gmap string value :=
  diff_record "resize_inputs_length" "resize_inputs.length" (VInt 1) (VInt 2)
    "resize input event count diverged".

(** A store with two diffs. *)
Definition two_diffs : list (gmap string value) :=
  [frame_count_diff; resize_length_diff].

(** ** Sample rule lines *)

(** Six fields: the rationale is followed by a tab and a note. *)
Definition long_line : string :=
  "frame_*" +:+ String tab "firefox*" +:+ String tab "chrome*"
  +:+ String tab "*" +:+ String tab " repaint cadence "
  +:+ String tab "see the tracker".

(** ** A sample run: one baseline and two targets *)

(** The baseline and the first target receive one resize; the second
    target receives it twice. *)
Definition one_resize : list (gmap string json) :=
  [ resize_event (JInt 80) (JInt 24) "k0";
    frame_event (JInt 80) (JInt 24) "k0";
    run_end_event "passed" (JInt 1) ].

Definition two_resizes : list (gmap string json) :=
  [ resize_event (JInt 80) (JInt 24) "k0";
    resize_event (JInt 80) (JInt 24) "k0";
    frame_event (JInt 80) (JInt 24) "k0";
    run_end_event "passed" (JInt 1) ].

Definition sample_load (path : string) : result (list (gmap string json)) :=
  if String.eqb path "chrome.jsonl" then Ok one_resize
  else if String.eqb path "firefox.jsonl" then Ok one_resize
  else if String.eqb path "safari.jsonl" then Ok two_resizes
  else Raise (ValueError ("trace not found: " +:+ path)).

Definition sample_read (path : string) : result (list string) :=
  if String.eqb path "known.tsv" then Ok ["# accepted divergences"; long_line]
  else Raise (ValueError ("known divergences file not found: " +:+ path)).

Definition sample_args (mode : string) : Args :=
  {| trace := ["chrome=chrome.jsonl"; "firefox=firefox.jsonl";
               "safari = safari.jsonl"];
     baseline := ""; known := "known.tsv"; mode := mode |}.

(** * The rest of the module: trace files and the console output *)

(** ** [str.splitlines] *)

(** The ASCII line boundaries: line feed, vertical tab, form feed, carriage
    return, and the separators 0x1c-0x1e. *)
Definition is_linebreak (c : ascii) : bool :=
  let n := nat_of_ascii c in
  ((10 <=? n)%nat && (n <=? 13)%nat) || ((28 <=? n)%nat && (n <=? 30)%nat).

(** [cur] holds the current line, reversed. A carriage return followed by a
    line feed is one boundary; the text after the last boundary is a line
    only when it is not empty. *)
Fixpoint splitlines_go (cur : string) (s : string) : list string :=
  match s with
  | EmptyString => if str_is_empty cur then [] else [String.rev cur]
  | String c s' =>
      if is_linebreak c
      then String.rev cur ::
           match s' with
           | String c' s'' =>
               if Ascii.eqb c (ascii_of_nat 13) && Ascii.eqb c' (ascii_of_nat 10)
               then splitlines_go EmptyString s''
               else splitlines_go EmptyString s'
           | EmptyString => splitlines_go EmptyString s'
           end
      else splitlines_go (String c cur) s'
  end.

(** [s.splitlines()] *)
Definition splitlines (s : string) : list string :=
  splitlines_go EmptyString s.

(** ** [load_jsonl] *)

(** What [json.loads] does with a text: a value, a [JSONDecodeError], or
    another exception (a number too long to convert, too deep a nesting). *)
Inductive loads_outcome : Type :=
  | Decoded (v : json)
  | JSONDecodeError (msg : string)
  | LoadsRaise (e : error).

Section LoadJsonl.

(** The JSON decoder is the boundary of the model. *)
Variable json_loads : string -> loads_outcome.

(** Body of the loop of [load_jsonl], for line number [idx]. *)
Definition load_line (path : string) (events : list (gmap string json))
    (numbered : nat * string) : result (list (gmap string json)) :=
  let '(idx, line) := numbered in
  let raw := strip line in
  if str_is_empty raw then Ok events
  else
    match json_loads raw with
    | JSONDecodeError exc =>
        Raise (ValueError
                 (path +:+ ":" +:+ pretty idx +:+ ": invalid JSONL entry: "
                  +:+ exc))
    | LoadsRaise e => Raise e
    | Decoded (JObj obj) => Ok (events ++ [obj])
    | Decoded _ =>
        Raise (ValueError
                 (path +:+ ":" +:+ pretty idx +:+
                  ": expected JSON object per line"))
    end.

(** [load_jsonl(path)] for a file that exists, on its text
    ([path.read_text()]). *)
Definition load_jsonl_text (path text : string)
  : result (list (gmap string json)) :=
  events ← for_each (load_line path) (enumerate1 (splitlines text)) [];
  if negb (nonempty events)
  then Raise (ValueError (path +:+ ": JSONL is empty"))
  else Ok events.

End LoadJsonl.

(** [parse_known_divergences(path)] for a file that exists, on its text. *)
Definition parse_known_divergences_text (path text : string)
  : result (list KnownDivergence) :=
  parse_known_divergences path (splitlines text).

(** ** The console output of [main] *)

(** [str(v)], the f-string field [{v}]. *)
Definition py_str (v : value) : string :=
  match v with
  | VNone => "None"
  | VInt n => str_of_int n
  | VStr s => s
  end.

Definition hex_digit (n : nat) : ascii :=
  ascii_of_nat (if (n <? 10)%nat then 48 + n else 87 + n).

Definition single_quote : ascii := ascii_of_nat 39.
Definition double_quote : ascii := ascii_of_nat 34.
Definition backslash : ascii := ascii_of_nat 92.

Fixpoint str_contains (c : ascii) (s : string) : bool :=
  match s with
  | EmptyString => false
  | String c' s' => Ascii.eqb c' c || str_contains c s'
  end.

(** One character of [repr(s)]: the quote and the backslash are escaped,
    tab, line feed and carriage return have their letters, the other
    control characters are written in hexadecimal. *)
Definition repr_char (quote c : ascii) : string :=
  let n := nat_of_ascii c in
  if Ascii.eqb c quote || Ascii.eqb c backslash
  then String backslash (String c EmptyString)
  else if (n =? 9)%nat then String backslash "t"
  else if (n =? 10)%nat then String backslash "n"
  else if (n =? 13)%nat then String backslash "r"
  else if (n <? 32)%nat || (n =? 127)%nat
  then String backslash
         (String "x" (String (hex_digit (n / 16))
                        (String (hex_digit (n mod 16)) EmptyString)))
  else String c EmptyString.

Fixpoint repr_chars (quote : ascii) (s : string) : string :=
  match s with
  | EmptyString => EmptyString
  | String c s' => repr_char quote c +:+ repr_chars quote s'
  end.

(** [repr(s)] for a [str]: in single quotes, unless the text has a single
    quote and no double quote. *)
Definition repr_str (s : string) : string :=
  let quote :=
    if str_contains single_quote s && negb (str_contains double_quote s)
    then double_quote else single_quote in
  String quote (repr_chars quote s) +:+ String quote EmptyString.

(** [repr(v)], the f-string field [{v!r}]. *)
Definition py_repr (v : value) : string :=
  match v with
  | VNone => "None"
  | VInt n => str_of_int n
  | VStr s => repr_str s
  end.

(** The line printed for one unknown diff. *)
Definition unknown_line (diff : gmap string value) : result string :=
  baseline_browser ← dict_getitem diff "baseline_browser";
  target_browser ← dict_getitem diff "target_browser";
  class_name ← dict_getitem diff "class";
  path ← dict_getitem diff "path";
  expected ← dict_getitem diff "expected";
  actual ← dict_getitem diff "actual";
  Ok ("  - " +:+ py_str baseline_browser +:+ " vs " +:+ py_str target_browser
      +:+ " " +:+ py_str class_name +:+ " " +:+ py_str path
      +:+ " expected=" +:+ py_repr expected
      +:+ " actual=" +:+ py_repr actual).

Definition truncated_line (max_printed_unknown : Z) : string :=
  "[DIFF] ... truncated unknown divergence output at "
  +:+ str_of_int max_printed_unknown +:+ " entries".

(** ** [main] and the outside world *)

(** What a run has done to the outside, oldest first: the report file it
    wrote, a line it printed to the standard output, the error line it
    printed to the standard error. Only what completed is recorded. *)
Inductive event : Type :=
  | Wrote (report_path : string) (report : Report)
  | Printed (line : string)
  | PrintedError (exc : error).

(** A step of [main]: from the events so far to the events after it and
    the value it returns or the exception it raises. *)
Definition io (A : Type) : Type := list event -> list event * result A.

#[global] Instance io_ret : MRet io := fun A a h => (h, Ok a).

#[global] Instance io_bind : MBind io := fun A B k c h =>
  match c h with
  | (h', Ok a) => k a h'
  | (h', Raise e) => (h', Raise e)
  end.

(** A computation that touches nothing outside. *)
Definition lift {A : Type} (c : result A) : io A := fun h => (h, c).

Section Main.

(** The readers, as for [build_report]. *)
Variable load_jsonl : string -> result (list (gmap string json)).
Variable read_lines : string -> result (list string).

(** The file system and the two output streams are the boundary of the
    model: whether writing the report ([parent.mkdir] and [write_text]) or
    a [print] raises, and what, may depend on everything done before. *)
Variable write_raises : list event -> string -> Report -> option error.
Variable print_raises : list event -> string -> option error.
Variable print_error_raises : list event -> error -> option error.

(** [report_path.parent.mkdir(...)] and [report_path.write_text(...)] *)
Definition write_report (report_path : string) (report : Report) : io unit :=
  fun h =>
    match write_raises h report_path report with
    | Some e => (h, Raise e)
    | None => (h ++ [Wrote report_path report], Ok tt)
    end.

(** [print(line)] *)
Definition print (line : string) : io unit :=
  fun h =>
    match print_raises h line with
    | Some e => (h, Raise e)
    | None => (h ++ [Printed line], Ok tt)
    end.

(** The inner loop over the unknown diffs of one comparison; it returns
    the counter [printed]. The loop breaks, after the truncation notice, at
    the first diff it meets with the limit reached. *)
Fixpoint print_unknown_diffs (max_printed_unknown : Z)
    (diffs : list (gmap string value)) (printed : Z) : io Z :=
  match diffs with
  | [] => mret printed
  | diff :: diffs' =>
      if (max_printed_unknown <=? printed)%Z
      then _ ← print (truncated_line max_printed_unknown); mret printed
      else
        line ← lift (unknown_line diff);
        _ ← print line;
        print_unknown_diffs max_printed_unknown diffs' (printed + 1)
  end.

(** The outer loop: it breaks after a comparison that leaves the limit
    reached. *)
Fixpoint print_comparisons (max_printed_unknown : Z)
    (comparisons : list Comparison) (printed : Z) : io Z :=
  match comparisons with
  | [] => mret printed
  | cmp_result :: comparisons' =>
      printed ←
        print_unknown_diffs max_printed_unknown (unknown_diffs cmp_result)
          printed;
      if (max_printed_unknown <=? printed)%Z then mret printed
      else print_comparisons max_printed_unknown comparisons' printed
  end.

(** The [try] block of [main]. [report_path] is the text of
    [Path(args.report)] and [max_printed_unknown] is
    [args.max_printed_unknown]. *)
Definition run (max_printed_unknown : Z) (report_path : string) (args : Args)
  : io Z :=
  report ← lift (build_report load_jsonl read_lines args);
  _ ← write_report report_path report;
  _ ← print ("[DIFF] baseline=" +:+ report_baseline_browser report
             +:+ " comparisons=" +:+ pretty (length (comparisons report))
             +:+ " known=" +:+ pretty (sum_known_diffs (summary report))
             +:+ " unknown=" +:+ pretty (sum_unknown_diffs (summary report))
             +:+ " mode=" +:+ report_mode report);
  _ ← (if (0 <? sum_unknown_diffs (summary report))%nat
       then
         _ ← print "[DIFF] Unknown divergences:";
         print_comparisons max_printed_unknown (comparisons report) 0
       else mret 0);
  _ ← print ("[DIFF] Report: " +:+ report_path);
  mret (if String.eqb (overall_status (summary report)) "fail" then 1 else 0).

(** The [except] clause: the error line goes to the standard error and the
    exit code is 2; an exception raised by that [print] leaves [main]. *)
Definition on_exception (h : list event) (exc : error)
  : list event * result Z :=
  match print_error_raises h exc with
  | Some e => (h, Raise e)
  | None => (h ++ [PrintedError exc], Ok 2)
  end.

(** [main], after [parse_args]: what it does to the outside, and the exit
    code it returns or the exception that leaves it. *)
Definition main (max_printed_unknown : Z) (report_path : string) (args : Args)
  : list event * result Z :=
  match run max_printed_unknown report_path args [] with
  | (h, Ok code) => (h, Ok code)
  | (h, Raise exc) => on_exception h exc
  end.

End Main.

(** ** Lines of the rule file and of a trace file, one at a time *)

(** A line that is neither blank nor a comment. *)
Definition is_rule_line (line : string) : bool :=
  negb (str_is_empty (strip line) || startswith (strip line) "#").

(** The rule made of the first five fields. *)
Definition rule_of_fields (parts : list string) : option KnownDivergence :=
  match parts with
  | p0 :: p1 :: p2 :: p3 :: p4 :: _ =>
      Some {| class_pattern := or_star (strip p0);
              left_browser_pattern := or_star (strip p1);
              right_browser_pattern := or_star (strip p2);
              path_pattern := or_star (strip p3);
              rationale := strip p4 |}
  | _ => None
  end.

(** The rules a line contributes: one for a rule line with five fields or
    more, none for a blank line or a comment. *)
Definition rules_of_line (line : string) : list KnownDivergence :=
  if is_rule_line line
  then option_list (rule_of_fields (split tab (strip line)))
  else [].

(** A line the parser accepts. *)
Definition rule_line_ok (line : string) : bool :=
  negb (is_rule_line line) || (5 <=? length (split tab (strip line)))%nat.

Definition rule_format_error (path : string) (idx : nat) : error :=
  ValueError
    (path +:+ ":" +:+ pretty idx +:+ ": expected 5 tab-separated fields " +:+
     "(class, left, right, path_pattern, rationale)").

(** The events a line of a trace contributes. *)
Definition events_of_line (json_loads : string -> loads_outcome)
    (line : string) : list (gmap string json) :=
  if str_is_empty (strip line) then []
  else
    match json_loads (strip line) with
    | Decoded (JObj obj) => [obj]
    | _ => []
    end.

(** A line the loader accepts: blank, or a JSON object. *)
Definition trace_line_ok (json_loads : string -> loads_outcome)
    (line : string) : bool :=
  str_is_empty (strip line)
  || match json_loads (strip line) with
     | Decoded (JObj _) => true
     | _ => false
     end.

(** The exception for a line the loader rejects. *)
Definition trace_line_error (json_loads : string -> loads_outcome)
    (path : string) (idx : nat) (line : string) : error :=
  match json_loads (strip line) with
  | JSONDecodeError exc =>
      ValueError (path +:+ ":" +:+ pretty idx +:+ ": invalid JSONL entry: "
                  +:+ exc)
  | LoadsRaise e => e
  | Decoded _ =>
      ValueError (path +:+ ":" +:+ pretty idx +:+
                  ": expected JSON object per line")
  end.

(** A rule line whose class cell was meant to be empty: with the leading
    tab stripped, the columns move one place to the left. *)
Definition shifted_line : string :=
  String tab "firefox*" +:+ String tab "chrome*" +:+ String tab "frames.*"
  +:+ String tab "cadence" +:+ String tab "see the tracker".

(** ** A sample decoder and trace text *)

(** A decoder that knows four texts. *)
Definition sample_loads (raw : string) : loads_outcome :=
  if String.eqb raw "{resize}" then Decoded (JObj (resize_event (JInt 80) (JInt 24) "k0"))
  else if String.eqb raw "{run_end}" then Decoded (JObj (run_end_event "passed" (JInt 0)))
  else if String.eqb raw "[]" then Decoded (JList [])
  else if String.eqb raw "1e5000" then Decoded (JFloat (FInf false))
  else JSONDecodeError "Expecting value: line 1 column 1 (char 0)".

Definition line_feed : ascii := ascii_of_nat 10.

(** Two events, with a blank line between them and spaces around them. *)
Definition sample_trace_text : string :=
  "  {resize} " +:+ String line_feed (String line_feed "{run_end}")
  +:+ String line_feed "".

(** A third line that is not an object. *)
Definition bad_trace_text : string :=
  "{resize}" +:+ String line_feed ("   " +:+ String line_feed "[]").

(** ** A [--trace] argument and the trace it stands for *)

(** [raw] reads [label=path]: the label is the text before the first ["="],
    stripped, and is not empty; the path is all the text after it,
    stripped. *)
Definition trace_of_arg (raw : string) (t : TraceInput) : Prop :=
  exists b p,
    raw = b +:+ String "=" p
    /\ str_contains "=" b = false
    /\ browser t = strip b
    /\ path t = strip p
    /\ browser t <> EmptyString.

(** ** The diff engine, seen from outside *)

(** A diff with its [expected] and [actual] values exchanged. *)
Definition swap_expected_actual (d : gmap string value) : gmap string value :=
  match d !! "expected", d !! "actual" with
  | Some e, Some a => <["expected" := a]> (<["actual" := e]> d)
  | _, _ => d
  end.

(** All that decides whether two signatures differ. *)
Definition compared_fields (s : Signature)
  : string * string * Z * list ResizeInput * list string * nat
    * option (Z * Z * string) :=
  (status (run_end s), outcome (run_end s), frames_reported (run_end s),
   resize_inputs s, geometry_sequence s, length (frames s),
   final_frame (frames s)).

(** Two signatures that differ in every field the diff engine does not
    read: the checksums of the run_end summary, the frame hashes, and a
    frame that is not the last. *)
Definition storm_signature_variant : Signature :=
  {| run_end :=
       {| status := "passed"; outcome := "completed"; frames_reported := 5;
          checksum_chain := "c0ffee"; output_sha256 := "deadbeef" |};
     resize_inputs := resize_inputs storm_signature;
     frames :=
       [ {| cols := 1; rows := 1; frame_hash := "x"; hash_key := "zz" |};
         {| cols := 80; rows := 24; frame_hash := "x"; hash_key := "k0" |};
         {| cols := 100; rows := 30; frame_hash := "x"; hash_key := "k1" |};
         {| cols := 100; rows := 30; frame_hash := "x"; hash_key := "k1" |};
         {| cols := 80; rows := 24; frame_hash := "other"; hash_key := "k2" |} ];
     geometry_sequence := geometry_sequence storm_signature |}.

(** ** Events the extraction reads *)

(** An event [extract_signature] looks at: a run_end event, a resize input
    or a frame. *)
Definition is_signature_event (event : gmap string json) : bool :=
  is_run_end event || is_resize_input event || is_frame event.

(** ** What a reported diff says *)

(** A diff record whose [expected] and [actual] values differ. *)
Definition reports_difference (d : gmap string value) : Prop :=
  exists class_name path expected actual details,
    d = diff_record class_name path expected actual details
    /\ expected <> actual.

(** ** The effects of a run, one after the other *)

(** An environment in which nothing raises. *)
Definition quiet_write (h : list event) (report_path : string)
    (report : Report) : option error := None.

Definition quiet_print (h : list event) (line : string) : option error := None.

Definition quiet_print_error (h : list event) (exc : error) : option error :=
  None.

(** A standard output that is closed: every [print] to it raises. *)
Definition closed_print (h : list event) (line : string) : option error :=
  Some (ValueError "I/O operation on closed file.").

Section Replay.

Variable write_raises : list event -> string -> Report -> option error.
Variable print_raises : list event -> string -> option error.
Variable print_error_raises : list event -> error -> option error.

(** Whether the effect raises after the events [h]. *)
Definition raises (h : list event) (ev : event) : option error :=
  match ev with
  | Wrote report_path report => write_raises h report_path report
  | Printed line => print_raises h line
  | PrintedError exc => print_error_raises h exc
  end.

(** The effects [evs] attempted in order after the events [h], up to the
    first one that raises: the events then, and the exception if any. *)
Fixpoint replay (evs : list event) (h : list event)
  : list event * option error :=
  match evs with
  | [] => (h, None)
  | ev :: evs' =>
      match raises h ev with
      | Some e => (h, Some e)
      | None => replay evs' (h ++ [ev])
      end
  end.

End Replay.

(** The result [a] after effects that all completed, the exception of the
    one that raised otherwise. *)
Definition finish {A : Type} (r : list event * option error) (a : A)
  : list event * result A :=
  match r with
  | (h, None) => (h, Ok a)
  | (h, Some e) => (h, Raise e)
  end.

(** ** The report and what [main] prints *)

(** The unknown diffs of the comparisons, one comparison after the other. *)
Definition all_unknown (comparisons : list Comparison)
  : list (gmap string value) :=
  concat (unknown_diffs <$> comparisons).

(** The line of a diff that has the six fields the line shows. *)
Definition printed_line (diff : gmap string value) : string :=
  match unknown_line diff with
  | Ok line => line
  | Raise _ => EmptyString
  end.

(** The diff has the six fields. *)
Definition prints (diff : gmap string value) : Prop :=
  unknown_line diff = Ok (printed_line diff).

(** The first and the last line of the output. *)
Definition header_line (report : Report) : string :=
  "[DIFF] baseline=" +:+ report_baseline_browser report
  +:+ " comparisons=" +:+ pretty (length (comparisons report))
  +:+ " known=" +:+ pretty (sum_known_diffs (summary report))
  +:+ " unknown=" +:+ pretty (sum_unknown_diffs (summary report))
  +:+ " mode=" +:+ report_mode report.

Definition report_line (report_path : string) : string :=
  "[DIFF] Report: " +:+ report_path.

(** A comparison made with the rules [rules]: its known and unknown diffs
    are what the rules make of a list of diffs of the diff engine. *)
Definition comparison_of (rules : list KnownDivergence) (c : Comparison)
  : Prop :=
  exists raw,
    Forall reports_difference raw
    /\ cmp_total_diffs c = length raw
    /\ known_diffs c
       = omap (known_of rules (cmp_baseline_browser c) (cmp_target_browser c))
           raw
    /\ unknown_diffs c
       = omap (unknown_of rules (cmp_baseline_browser c)
                 (cmp_target_browser c)) raw.

(** What the comparison loop maintains of its counters. *)
Definition counts_inv (rules : list KnownDivergence) (st : Totals) : Prop :=
  Forall (comparison_of rules) (acc_comparisons st)
  /\ total_known st
     = sum_list_with (fun c => length (known_diffs c)) (acc_comparisons st)
  /\ total_unknown st
     = sum_list_with (fun c => length (unknown_diffs c)) (acc_comparisons st)
  /\ total_diffs st = sum_list_with cmp_total_diffs (acc_comparisons st).

(** A diff of a report names the two browsers of its comparison. *)
Definition names_browsers (c : Comparison) (d : gmap string value) : Prop :=
  d !! "baseline_browser" = Some (VStr (cmp_baseline_browser c))
  /\ d !! "target_browser" = Some (VStr (cmp_target_browser c)).

(** The exit code of a run that reaches its end. *)
Definition exit_code_of (mode : string) (report : Report) : Z :=
  if String.eqb mode "warn" then 0
  else if nonempty (all_unknown (comparisons report)) then 1
  else 0.

(** The lines of a run that reaches its end. [tail] is what follows the
    lines of the diffs: the truncation notice, or nothing. *)
Definition console_lines (max_printed_unknown : Z) (report_path : string)
    (report : Report) (tail : list string) : list string :=
  header_line report
  :: (if nonempty (all_unknown (comparisons report))
      then "[DIFF] Unknown divergences:"
           :: (printed_line
                 <$> take (Z.to_nat max_printed_unknown)
                       (all_unknown (comparisons report)))
           ++ tail
      else [])
  ++ [report_line report_path].

(** When the truncation notice follows the lines of the diffs, the counter
    being [printed] before the first comparison: only when diffs are left
    out; always when the limit falls inside the list of a comparison (or
    is reached before a first comparison that has diffs); never when the
    limit is reached exactly at the end of the list of a comparison. *)
Definition truncation_tail (max_printed_unknown : Z)
    (comparisons : list Comparison) (printed : Z) (tail : list string)
  : Prop :=
  (tail = [] \/ tail = [truncated_line max_printed_unknown])
  /\ (tail <> [] ->
      (Z.to_nat (max_printed_unknown - printed)
       < length (all_unknown comparisons))%nat)
  /\ (forall pre c post,
        comparisons = pre ++ c :: post ->
        pre = [] \/ printed + Z.of_nat (length (all_unknown pre))
                    < max_printed_unknown ->
        unknown_diffs c <> [] ->
        max_printed_unknown
        < printed + Z.of_nat (length (all_unknown pre))
          + Z.of_nat (length (unknown_diffs c)) ->
        tail = [truncated_line max_printed_unknown])
  /\ (forall pre post,
        comparisons = pre ++ post ->
        pre <> [] ->
        printed + Z.of_nat (length (all_unknown pre)) = max_printed_unknown ->
        tail = []).

(** ** Rules that spell out the path of a diff *)

(** The classes of the diffs whose path has no index. *)
Definition unindexed_classes : list string :=
  ["run_end_mismatch"; "resize_inputs_length"; "geometry_sequence_length";
   "frame_count"].

(** A decimal digit. *)
Definition is_digit (c : ascii) : bool :=
  (48 <=? nat_of_ascii c)%nat && (nat_of_ascii c <=? 57)%nat.

(** A character that stands for itself in a pattern. *)
Definition is_plain (c : ascii) : bool :=
  negb (Ascii.eqb c "*" || Ascii.eqb c "?" || Ascii.eqb c "[").

(** What a rule whose path pattern is the path of the diff itself does
    with the diff: the pattern matches the path exactly when the class of
    the diff is one of those without an index. *)
Definition own_path_matches (d : gmap string value) : Prop :=
  exists c p,
    d !! "class" = Some (VStr c)
    /\ d !! "path" = Some (VStr p)
    /\ fnmatchcase p p = bool_decide (c ∈ unindexed_classes).

(** * Properties *)

(** ** Loops in the error monad *)

Lemma bind_Ok {A B : Type} (a : A) (k : A -> result B) :
  (Ok a ≫= k) = k a.
Proof. reflexivity. Qed.

Lemma bind_Ok_inv {A B : Type} (c : result A) (k : A -> result B) (b : B) :
  (c ≫= k) = Ok b -> exists a, c = Ok a /\ k a = Ok b.
Proof. destruct c as [a|e]; [eauto | discriminate]. Qed.

(** A loop whose body leaves the state alone leaves it alone. *)
Lemma for_each_fixed {S A : Type} (body : S -> A -> result S) (l : list A)
    (s : S) :
  (forall x, x ∈ l -> body s x = Ok s) -> for_each body l s = Ok s.
Proof.
  induction l as [|x l IH]; intros Hbody; simpl; [reflexivity|].
  rewrite (Hbody x) by left. simpl. apply IH.
  intros y Hy. apply Hbody. by right.
Qed.

(** An invariant of the body is an invariant of the loop. *)
Lemma for_each_inv {S A : Type} (P : S -> Prop) (body : S -> A -> result S)
    (l : list A) (s s' : S) :
  P s ->
  (forall s0 x s1, x ∈ l -> P s0 -> body s0 x = Ok s1 -> P s1) ->
  for_each body l s = Ok s' -> P s'.
Proof.
  revert s. induction l as [|x l IH]; intros s Hs Hbody Hrun; simpl in Hrun.
  - by inversion Hrun; subst.
  - apply bind_Ok_inv in Hrun as (s1 & Hx & Hrest).
    apply (IH s1); [ | | exact Hrest].
    + eapply Hbody; [left | exact Hs | exact Hx].
    + intros s0 y s2 Hy. apply Hbody. by right.
Qed.

Lemma elem_of_range (n idx : nat) : idx ∈ range n <-> (idx < n)%nat.
Proof. unfold range. rewrite elem_of_seq. lia. Qed.

Lemma getitem_lt {A : Type} (l : list A) (idx : nat) :
  (idx < length l)%nat -> exists x, l !! idx = Some x /\ getitem l idx = Ok x.
Proof.
  intros Hlt. destruct (lookup_lt_is_Some_2 l idx Hlt) as [x Hx].
  exists x. unfold getitem. by rewrite Hx.
Qed.

Lemma getitem_last_nonempty {A : Type} (l : list A) :
  nonempty l = true -> exists x, last l = Some x /\ getitem_last l = Ok x.
Proof.
  destruct l as [|a l] using rev_ind; [discriminate|]. intros _.
  exists a. unfold getitem_last. by rewrite last_snoc.
Qed.

Lemma py_ne_refl (v : value) : py_ne v v = false.
Proof. unfold py_ne. by rewrite bool_decide_eq_true_2. Qed.

(** ** Reflexivity of the comparison *)

Lemma check_resize_input_same (l : list ResizeInput)
    (diffs : list (gmap string value)) (idx : nat) :
  (idx < length l)%nat -> check_resize_input l l diffs idx = Ok diffs.
Proof.
  intros Hlt. unfold check_resize_input.
  destruct (getitem_lt l idx Hlt) as (x & _ & ->). simpl.
  rewrite bool_decide_eq_true_2 by reflexivity.
  by rewrite String.eqb_refl.
Qed.

Lemma check_geometry_same (l : list string)
    (diffs : list (gmap string value)) (idx : nat) :
  (idx < length l)%nat -> check_geometry l l diffs idx = Ok diffs.
Proof.
  intros Hlt. unfold check_geometry.
  destruct (getitem_lt l idx Hlt) as (x & _ & ->). simpl.
  by rewrite String.eqb_refl.
Qed.

(** C1. Comparing a signature with itself reports no diff: for every
    signature [S], [compare_signatures S S] returns the empty list. *)
Theorem compare_signatures_refl (S : Signature) :
  compare_signatures S S = Ok [].
Proof.
  unfold compare_signatures. simpl fold_left.
  unfold check_run_end_field. rewrite !py_ne_refl.
  rewrite !Nat.eqb_refl. simpl negb. cbv iota.
  rewrite for_each_fixed; last first.
  { intros idx Hidx%elem_of_range. apply check_resize_input_same. lia. }
  rewrite bind_Ok.
  rewrite for_each_fixed; last first.
  { intros idx Hidx%elem_of_range. apply check_geometry_same. lia. }
  rewrite bind_Ok, andb_diag.
  destruct (nonempty (frames S)) eqn:Hne; [|reflexivity].
  destruct (getitem_last_nonempty _ Hne) as (x & _ & ->). simpl.
  rewrite bool_decide_eq_true_2 by reflexivity.
  by rewrite String.eqb_refl.
Qed.

(** ** Geometry collapse *)

Lemma fold_push_geometry (fs : list Frame) (acc : list string) :
  fold_left push_geometry fs acc
  = acc ++ collapse_repeats (last acc) (frame_geom <$> fs).
Proof.
  revert acc. induction fs as [|f fs IH]; intros acc; simpl.
  { by rewrite app_nil_r. }
  rewrite IH. unfold push_geometry. fold (frame_geom f).
  destruct (last acc) as [g|] eqn:Hlast.
  - destruct (String.eqb_spec g (frame_geom f)) as [->|Hne]; simpl.
    + rewrite Hlast. by rewrite bool_decide_eq_true_2.
    + rewrite last_snoc, <- app_assoc. simpl.
      rewrite bool_decide_eq_false_2 by congruence. done.
  - rewrite last_snoc, <- app_assoc. simpl. done.
Qed.

Lemma collapse_repeats_head (prev : option string) (l : list string)
    (g : string) :
  head (collapse_repeats prev l) = Some g -> prev <> Some g.
Proof.
  revert prev. induction l as [|x l IH]; intros prev; simpl; [discriminate|].
  case_bool_decide as Hprev.
  - apply IH.
  - simpl. intros [= ->]. exact Hprev.
Qed.

Lemma collapse_repeats_no_adjacent (prev : option string) (l : list string) :
  no_adjacent_repeat (collapse_repeats prev l).
Proof.
  revert prev. induction l as [|x l IH]; intros prev; simpl.
  { intros i g. by rewrite lookup_nil. }
  case_bool_decide as Hprev; [apply IH|].
  intros [|i] g; simpl.
  - intros [= ->] Hnext.
    apply (collapse_repeats_head (Some g) l g); [|reflexivity].
    by rewrite head_lookup.
  - apply IH.
Qed.

Lemma geometry_of_frames_collapse (fs : list Frame) :
  geometry_of_frames fs = collapse_repeats None (frame_geom <$> fs).
Proof. unfold geometry_of_frames. by rewrite fold_push_geometry. Qed.

Lemma extract_signature_geometry (events : list (gmap string json))
    (sig : Signature) :
  extract_signature events = Ok sig ->
  geometry_sequence sig = geometry_of_frames (frames sig).
Proof.
  unfold extract_signature. destruct (select_run_end events); [|discriminate].
  intros ([ris fs] & _ & H)%bind_Ok_inv.
  apply bind_Ok_inv in H as (n & _ & H). by inversion H.
Qed.

(** C2. The geometry sequence of an extracted signature is the list of
    ["{cols}x{rows}"] of its frames, in order, where an entry is left out
    exactly when it equals the entry emitted just before it: no entry is
    followed by an equal one, but a geometry may come back later. Frames of
    sizes (80,24), (80,24), (100,30), (100,30), (80,24) give the three
    entries "80x24", "100x30", "80x24". *)
Theorem geometry_sequence_collapse (events : list (gmap string json))
    (sig : Signature) :
  extract_signature events = Ok sig ->
  geometry_sequence sig = collapse_repeats None (frame_geom <$> frames sig)
  /\ no_adjacent_repeat (geometry_sequence sig)
  /\ ((fun f => (cols f, rows f)) <$> frames sig
        = [(80, 24); (80, 24); (100, 30); (100, 30); (80, 24)] ->
      geometry_sequence sig = ["80x24"; "100x30"; "80x24"]
      /\ length (geometry_sequence sig) = 3%nat).
Proof.
  intros Hsig. rewrite (extract_signature_geometry _ _ Hsig).
  rewrite geometry_of_frames_collapse. split; [reflexivity|].
  split; [apply collapse_repeats_no_adjacent|].
  intros Hgeoms.
  assert (frame_geom <$> frames sig
          = (fun '(c, r) => geom_of c r)
              <$> ((fun f => (cols f, rows f)) <$> frames sig)) as ->.
  { rewrite <- list_fmap_compose. reflexivity. }
  rewrite Hgeoms. by vm_compute.
Qed.

Lemma geometry_sequence_collapse_witness :
  extract_signature storm_events = Ok storm_signature
  /\ geometry_sequence storm_signature = ["80x24"; "100x30"; "80x24"]
  /\ length (geometry_sequence storm_signature) = 3%nat.
Proof.
  assert (extract_signature storm_events = Ok storm_signature) as Hsig
    by (vm_compute; reflexivity).
  split; [exact Hsig|].
  apply (geometry_sequence_collapse storm_events storm_signature Hsig).
  vm_compute; reflexivity.
Defined.

(** ** Selection of the run_end event *)

Lemma select_fold_none (l : list (gmap string json))
    (acc : option (gmap string json)) :
  Forall (fun e => is_run_end e = false) l ->
  fold_left
    (fun run_end event =>
       if eq_str (get event "type") "run_end" then Some event else run_end)
    l acc = acc.
Proof.
  intros Hl. revert acc. induction Hl as [|e l He _ IH]; intros acc; simpl.
  - reflexivity.
  - unfold is_run_end in He. rewrite He. apply IH.
Qed.

Lemma select_run_end_last (pre post : list (gmap string json))
    (e : gmap string json) :
  is_run_end e = true ->
  Forall (fun e' => is_run_end e' = false) post ->
  select_run_end (pre ++ e :: post) = Some e.
Proof.
  intros He Hpost. unfold select_run_end. rewrite fold_left_app. simpl.
  unfold is_run_end in He. rewrite He. by apply select_fold_none.
Qed.

Lemma select_run_end_None (events : list (gmap string json)) :
  select_run_end events = None <->
  Forall (fun e => is_run_end e = false) events.
Proof.
  split; [|apply select_fold_none].
  unfold select_run_end.
  induction events as [|e events IH] using rev_ind; [constructor|].
  rewrite fold_left_app. simpl. fold (is_run_end e).
  destruct (is_run_end e) eqn:He; [discriminate|].
  intros Hnone. apply Forall_app. split; [by apply IH | by repeat constructor].
Qed.

Lemma as_int_raise (v : json) (e : error) :
  _as_int v = Raise e -> e = OverflowError.
Proof.
  unfold _as_int, py_int.
  destruct v as [|b|n|[|neg|num den]|s|l|m]; try discriminate.
  - congruence.
  - destruct (int_of_str s); discriminate.
Qed.

Lemma collect_event_raise (acc : list ResizeInput * list Frame)
    (event : gmap string json) (e : error) :
  collect_event acc event = Raise e -> e = OverflowError.
Proof.
  unfold collect_event. destruct acc as [ris fs].
  repeat case_match; try discriminate;
    (destruct (_as_int (get event "cols")) as [c|e1] eqn:Hc; simpl;
     [ destruct (_as_int (get event "rows")) as [r|e2] eqn:Hr; simpl;
       [ discriminate | intros [= <-]; by eapply as_int_raise ]
     | intros [= <-]; by eapply as_int_raise ]).
Qed.

Lemma for_each_raise {S A : Type} (P : error -> Prop)
    (body : S -> A -> result S) (l : list A) (s : S) (e : error) :
  (forall s0 x e0, body s0 x = Raise e0 -> P e0) ->
  for_each body l s = Raise e -> P e.
Proof.
  intros Hbody. revert s. induction l as [|x l IH]; intros s; simpl.
  - discriminate.
  - destruct (body s x) as [s1|e1] eqn:Hx; simpl; [apply IH|].
    intros [= <-]. by eapply Hbody.
Qed.

Lemma extract_signature_raise (events : list (gmap string json)) (e : error) :
  extract_signature events = Raise e ->
  (select_run_end events = None /\ e = ValueError "missing run_end event")
  \/ (select_run_end events <> None /\ e = OverflowError).
Proof.
  unfold extract_signature.
  destruct (select_run_end events) as [run_end|]; [|intros [= <-]; by left].
  intros Hraise. right. split; [done|].
  destruct (for_each collect_event events ([], [])) as [[ris fs]|e1] eqn:Hloop;
    simpl in Hraise.
  - destruct (_as_int (get run_end "frames")) as [n|e2] eqn:Hn;
      simpl in Hraise; [discriminate|].
    injection Hraise as <-. by eapply as_int_raise.
  - injection Hraise as <-.
    eapply (for_each_raise (fun e => e = OverflowError)); [|exact Hloop].
    intros s0 x e0. apply collect_event_raise.
Qed.

Lemma extract_signature_run_end (events : list (gmap string json))
    (e : gmap string json) (sig : Signature) :
  select_run_end events = Some e ->
  extract_signature events = Ok sig ->
  summary_of e (run_end sig).
Proof.
  unfold extract_signature. intros ->.
  intros ([ris fs] & _ & H)%bind_Ok_inv.
  apply bind_Ok_inv in H as (n & Hn & H). injection H as <-.
  unfold summary_of. simpl. by rewrite Hn.
Qed.

(** C7. Extraction fails with the missing-run_end error exactly when no
    event has [type == "run_end"]; otherwise the run_end summary of the
    signature is read off the last such event, whatever run_end events
    come before it. *)
Theorem run_end_selection (events : list (gmap string json)) :
  (extract_signature events = Raise (ValueError "missing run_end event")
   <-> Forall (fun e => is_run_end e = false) events)
  /\ (forall pre e post sig,
        events = pre ++ e :: post ->
        is_run_end e = true ->
        Forall (fun e' => is_run_end e' = false) post ->
        extract_signature events = Ok sig ->
        summary_of e (run_end sig)).
Proof.
  split.
  - rewrite <- select_run_end_None. split.
    + intros [[Hnone _]|[_ [=]]]%extract_signature_raise. exact Hnone.
    + intros Hnone. unfold extract_signature. by rewrite Hnone.
  - intros pre e post sig -> He Hpost Hsig.
    eapply extract_signature_run_end; [|exact Hsig].
    by apply select_run_end_last.
Qed.

Lemma run_end_selection_witness :
  extract_signature storm_events = Ok storm_signature
  /\ summary_of (run_end_event "passed" (JInt 5)) (run_end storm_signature)
  /\ status (run_end storm_signature) = "passed".
Proof.
  assert (extract_signature storm_events = Ok storm_signature) as Hsig
    by (vm_compute; reflexivity).
  split; [exact Hsig|]. split; [|reflexivity].
  apply (proj2 (run_end_selection storm_events)
           (removelast storm_events) (run_end_event "passed" (JInt 5)) []
           storm_signature);
    [ reflexivity | vm_compute; reflexivity | constructor | exact Hsig ].
Defined.

(** ** Field coercion *)

Lemma as_str_default (v : json) : _as_str v = str_or_default v.
Proof. reflexivity. Qed.

Lemma as_int_default (v : json) :
  not_infinite v -> _as_int v = Ok (int_or_default v).
Proof.
  unfold not_infinite, _as_int, py_int, int_or_default. intros Hfin.
  destruct v as [|b|n|[|neg|num den]|s|l|m]; try reflexivity.
  - by destruct (Hfin neg).
  - by destruct (int_of_str s).
Qed.

Lemma eq_str_input_frame (v : json) :
  eq_str v "input" = true -> eq_str v "frame" = false.
Proof.
  destruct v as [| | | |s| |]; simpl; try discriminate.
  intros ->%String.eqb_eq. reflexivity.
Qed.

Lemma collect_event_project (acc : list ResizeInput * list Frame)
    (event : gmap string json) :
  int_fields_not_infinite event ->
  collect_event acc event
  = Ok (acc.1 ++ (if is_resize_input event then [project_resize_input event]
                  else []),
        acc.2 ++ (if is_frame event then [project_frame event] else [])).
Proof.
  intros (Hc & Hr & _). destruct acc as [ris fs].
  unfold collect_event, is_resize_input, is_frame.
  rewrite (as_int_default _ Hc), (as_int_default _ Hr). simpl.
  destruct (eq_str (get event "type") "input") eqn:Hin; simpl.
  - rewrite (eq_str_input_frame _ Hin).
    destruct (eq_str (get event "input_type") "resize"); simpl;
      by rewrite ?app_nil_r.
  - destruct (eq_str (get event "type") "frame"); simpl; by rewrite ?app_nil_r.
Qed.

Lemma filter_is_true_cons {A : Type} (f : A -> bool) (x : A) (l : list A) :
  filter (fun y => f y = true) (x :: l)
  = (if f x then [x] else []) ++ filter (fun y => f y = true) l.
Proof.
  destruct (f x) eqn:Hx.
  - by rewrite filter_cons_True.
  - rewrite filter_cons_False; [done | by rewrite Hx].
Qed.

Lemma collect_events_project (events : list (gmap string json))
    (acc : list ResizeInput * list Frame) :
  Forall int_fields_not_infinite events ->
  for_each collect_event events acc
  = Ok (acc.1 ++ (project_resize_input
                    <$> filter (fun e => is_resize_input e = true) events),
        acc.2 ++ (project_frame
                    <$> filter (fun e => is_frame e = true) events)).
Proof.
  intros Hfin. revert acc.
  induction Hfin as [|e events He _ IH]; intros acc; simpl.
  - rewrite ?filter_nil. simpl. rewrite ?app_nil_r. by destruct acc.
  - rewrite (collect_event_project _ _ He). simpl. rewrite IH. simpl.
    rewrite !filter_is_true_cons, !fmap_app, <- !app_assoc.
    by destruct (is_resize_input e), (is_frame e).
Qed.

Lemma select_run_end_elem (events : list (gmap string json))
    (e : gmap string json) :
  select_run_end events = Some e -> e ∈ events.
Proof.
  unfold select_run_end.
  induction events as [|x events IH] using rev_ind; [discriminate|].
  rewrite fold_left_app. simpl.
  destruct (eq_str (get x "type") "run_end").
  - intros [= ->]. apply elem_of_app. right. by left.
  - intros H. apply elem_of_app. left. by apply IH.
Qed.

(** C6 (as amended). Scalar fields are read with typed defaults. A string
    field yields the value when it is a string and [""] otherwise. An integer
    field yields what [int()] converts the value to (an integer itself, 0 or
    1 for a boolean, the truncation of a finite float, the value of a string
    that is an integer literal) and -1 when the value is absent, null, a
    list, an object, not-a-number or a string that is not an integer literal.
    With a run_end event present and no integer field an infinite float,
    extraction succeeds and its result is the field-wise projection of the
    events. *)
Theorem field_coercion (events : list (gmap string json))
    (e : gmap string json) :
  Forall int_fields_not_infinite events ->
  select_run_end events = Some e ->
  extract_signature events
  = Ok {| run_end := project_run_end e;
          resize_inputs :=
            project_resize_input
              <$> filter (fun e => is_resize_input e = true) events;
          frames :=
            project_frame <$> filter (fun e => is_frame e = true) events;
          geometry_sequence :=
            geometry_of_frames
              (project_frame <$> filter (fun e => is_frame e = true) events) |}
  /\ (forall v, _as_str v = str_or_default v)
  /\ (forall v, not_infinite v -> _as_int v = Ok (int_or_default v))
  /\ (forall (event : gmap string json) key,
        event !! key = None ->
        int_or_default (get event key) = -1
        /\ str_or_default (get event key) = "")
  /\ (forall v, (forall s, v <> JStr s) -> str_or_default v = "")
  /\ (forall s, str_or_default (JStr s) = s)
  /\ (forall v,
        v = JNull \/ (exists l, v = JList l) \/ (exists m, v = JObj m)
        \/ v = JFloat FNan \/ (exists s, v = JStr s /\ int_of_str s = None) ->
        int_or_default v = -1)
  /\ (forall n, int_or_default (JInt n) = n)
  /\ (forall s n, int_of_str s = Some n -> int_or_default (JStr s) = n).
Proof.
  intros Hfin Hsel.
  split; [|split; [|split; [|split; [|split; [|split; [|split; [|split]]]]]]].
  - unfold extract_signature. rewrite Hsel.
    rewrite (collect_events_project _ _ Hfin). simpl.
    assert (int_fields_not_infinite e) as (_ & _ & Hn).
    { eapply Forall_forall; [exact Hfin|]. by apply select_run_end_elem. }
    by rewrite (as_int_default _ Hn).
  - apply as_str_default.
  - apply as_int_default.
  - intros event key Habsent. unfold get. by rewrite Habsent.
  - intros v Hv. destruct v; try reflexivity. by destruct (Hv s).
  - reflexivity.
  - intros v [->|[[l ->]|[[m ->]|[->|(s & -> & Hs)]]]]; simpl;
      try reflexivity. by rewrite Hs.
  - reflexivity.
  - intros s n Hs. simpl. by rewrite Hs.
Qed.

Lemma field_coercion_witness :
  extract_signature drift_events = Ok drift_signature.
Proof.
  assert (Forall int_fields_not_infinite drift_events) as Hfin.
  { repeat constructor; intros negative H; vm_compute in H; discriminate. }
  assert (select_run_end drift_events = Some (run_end_event "passed" JNull))
    as Hsel by (vm_compute; reflexivity).
  rewrite (proj1 (field_coercion drift_events _ Hfin Hsel)).
  vm_compute; reflexivity.
Defined.

(** C6 as stated fails on the code: a numeric string, a fractional number
    and a boolean in an integer field are converted, not replaced by -1, and
    an infinite float in an integer field makes extraction fail. *)
Lemma field_coercion_counterexample :
  _as_int (JStr "80") = Ok 80
  /\ _as_int (JFloat (FFinite 49 2)) = Ok 24
  /\ _as_int (JBool true) = Ok 1
  /\ frames drift_signature !! 0%nat
     = Some {| cols := 80; rows := 1; frame_hash := "h"; hash_key := "k0" |}
  /\ extract_signature drift_events = Ok drift_signature
  /\ select_run_end overflow_events <> None
  /\ extract_signature overflow_events = Raise OverflowError.
Proof. repeat split; vm_compute; (reflexivity || discriminate). Qed.

(** ** Order of the diffs *)

Lemma append_diff_record (diffs : list (gmap string value))
    (class_name path : string) (expected actual : value) (details : string) :
  _append_diff diffs class_name path expected actual details
  = diffs ++ [diff_record class_name path expected actual details].
Proof. reflexivity. Qed.

Lemma append_diff_if (differ : bool) (diffs : list (gmap string value))
    (class_name path : string) (expected actual : value) (details : string) :
  (if differ then _append_diff diffs class_name path expected actual details
   else diffs)
  = diffs ++ diff_if differ
               (diff_record class_name path expected actual details).
Proof. destruct differ; simpl; [apply append_diff_record | by rewrite app_nil_r]. Qed.

Lemma string_eqb_decide (a b : string) :
  String.eqb a b = bool_decide (a = b).
Proof.
  destruct (String.eqb_spec a b).
  - by rewrite bool_decide_eq_true_2.
  - by rewrite bool_decide_eq_false_2.
Qed.

Lemma nat_eqb_decide (a b : nat) : (a =? b)%nat = bool_decide (a = b).
Proof.
  destruct (Nat.eqb_spec a b).
  - by rewrite bool_decide_eq_true_2.
  - by rewrite bool_decide_eq_false_2.
Qed.

Lemma pair_decide {A B : Type} `{EqDecision A, EqDecision B} (a a' : A)
    (b b' : B) :
  bool_decide ((a, b) = (a', b')) = bool_decide (a = a' /\ b = b').
Proof. apply bool_decide_ext. split; [by intros [= -> ->] | by intros [-> ->]]. Qed.

Lemma check_run_end_field_diffs (b t : RunEnd)
    (diffs : list (gmap string value)) (field : string) :
  check_run_end_field b t diffs field = diffs ++ run_end_field_diffs b t field.
Proof. unfold check_run_end_field, py_ne. apply append_diff_if. Qed.

Section IndexLoop.

Context {A : Type}.
Variable body : list (gmap string value) -> nat
                -> result (list (gmap string value)).
Variable check : nat -> A -> A -> list (gmap string value).
Variables L1 L2 : list A.

Hypothesis body_check : forall diffs idx x y,
  L1 !! idx = Some x -> L2 !! idx = Some y ->
  body diffs idx = Ok (diffs ++ check idx x y).

Lemma index_loop_from (l1 l2 pre1 pre2 : list A)
    (diffs : list (gmap string value)) :
  L1 = pre1 ++ l1 -> L2 = pre2 ++ l2 -> length pre1 = length pre2 ->
  for_each body (seq (length pre1) (length l1 `min` length l2)) diffs
  = Ok (diffs ++ per_index_diffs check (length pre1) l1 l2).
Proof using body_check.
  revert l2 pre1 pre2 diffs.
  induction l1 as [|x l1 IH]; intros l2 pre1 pre2 diffs H1 H2 Hlen.
  { simpl. by rewrite app_nil_r. }
  destruct l2 as [|y l2]; simpl.
  { by rewrite app_nil_r. }
  rewrite (body_check diffs (length pre1) x y); cycle 1.
  { rewrite H1. by apply list_lookup_middle. }
  { rewrite H2. by apply list_lookup_middle. }
  simpl.
  specialize (IH l2 (pre1 ++ [x]) (pre2 ++ [y]) (diffs ++ check (length pre1) x y)).
  rewrite length_app, Nat.add_1_r in IH.
  rewrite IH, <- ?app_assoc;
    [ done | by rewrite H1, <- app_assoc | by rewrite H2, <- app_assoc
    | rewrite length_app; simpl; lia ].
Qed.

Lemma index_loop (diffs : list (gmap string value)) :
  for_each body (range (length L1 `min` length L2)) diffs
  = Ok (diffs ++ per_index_diffs check 0 L1 L2).
Proof using body_check. by apply (index_loop_from L1 L2 [] []). Qed.

End IndexLoop.

Lemma resize_loop (b t : list ResizeInput) (diffs : list (gmap string value)) :
  for_each (check_resize_input b t) (range (length b `min` length t)) diffs
  = Ok (diffs ++ per_index_diffs resize_index_diffs 0 b t).
Proof.
  apply index_loop. intros ds idx x y Hx Hy.
  unfold check_resize_input, getitem. rewrite Hx, Hy. simpl.
  rewrite !append_diff_if, <- app_assoc.
  unfold resize_index_diffs. by rewrite pair_decide, string_eqb_decide.
Qed.

Lemma geometry_loop (b t : list string) (diffs : list (gmap string value)) :
  for_each (check_geometry b t) (range (length b `min` length t)) diffs
  = Ok (diffs ++ per_index_diffs geometry_index_diffs 0 b t).
Proof.
  apply index_loop. intros ds idx x y Hx Hy.
  unfold check_geometry, getitem. rewrite Hx, Hy. simpl.
  rewrite append_diff_if. unfold geometry_index_diffs.
  by rewrite string_eqb_decide.
Qed.

Lemma final_frame_check (b t : list Frame) (diffs : list (gmap string value)) :
  (if nonempty b && nonempty t
   then
     baseline_last ← getitem_last b;
     target_last ← getitem_last t;
     let diffs :=
       if negb (bool_decide ((cols baseline_last, rows baseline_last)
                             = (cols target_last, rows target_last)))
       then _append_diff diffs "final_frame_geometry" "frames[-1].cols_rows"
              (VStr (geom_of (cols baseline_last) (rows baseline_last)))
              (VStr (geom_of (cols target_last) (rows target_last)))
              "final frame geometry diverged"
       else diffs in
     let diffs :=
       if negb (String.eqb (hash_key baseline_last) (hash_key target_last))
       then _append_diff diffs "final_frame_hash_key" "frames[-1].hash_key"
              (VStr (hash_key baseline_last)) (VStr (hash_key target_last))
              "final frame hash_key diverged"
       else diffs in
     Ok diffs
   else Ok diffs)
  = Ok (diffs ++ final_frame_diffs b t).
Proof.
  unfold final_frame_diffs, final_frame.
  destruct (nonempty b) eqn:Hb; simpl.
  - destruct (getitem_last_nonempty _ Hb) as (x & -> & ->).
    destruct (nonempty t) eqn:Ht; simpl.
    + destruct (getitem_last_nonempty _ Ht) as (y & -> & ->). simpl.
      rewrite !append_diff_if, <- app_assoc.
      by rewrite pair_decide, string_eqb_decide.
    + destruct t; [|discriminate]. simpl. by rewrite app_nil_r.
  - destruct b; [|discriminate]. simpl. by rewrite app_nil_r.
Qed.

Lemma compare_signatures_checks (b t : Signature) :
  compare_signatures b t
  = Ok (run_end_diffs (run_end b) (run_end t)
        ++ resize_diffs (resize_inputs b) (resize_inputs t)
        ++ geometry_diffs (geometry_sequence b) (geometry_sequence t)
        ++ frame_count_diffs (frames b) (frames t)
        ++ final_frame_diffs (frames b) (frames t)).
Proof.
  unfold compare_signatures. simpl fold_left.
  rewrite !check_run_end_field_diffs. simpl app at 1.
  rewrite !nat_eqb_decide, append_diff_if, resize_loop, bind_Ok.
  rewrite append_diff_if, geometry_loop, bind_Ok.
  rewrite append_diff_if, final_frame_check.
  unfold run_end_diffs, resize_diffs, geometry_diffs, frame_count_diffs,
    length_diffs.
  by rewrite <- !app_assoc.
Qed.

Lemma diff_record_class (c p : string) (e a : value) (d : string) :
  diff_record c p e a d !! "class" = Some (VStr c).
Proof. reflexivity. Qed.

Lemma diff_record_path (c p : string) (e a : value) (d : string) :
  diff_record c p e a d !! "path" = Some (VStr p).
Proof. reflexivity. Qed.

Lemma Forall_diff_if (P : gmap string value -> Prop) (differ : bool)
    (d : gmap string value) :
  P d -> Forall P (diff_if differ d).
Proof. destruct differ; simpl; by repeat constructor. Qed.

Lemma Forall_per_index {A : Type} (P : gmap string value -> Prop)
    (check : nat -> A -> A -> list (gmap string value)) (idx : nat)
    (l1 l2 : list A) :
  (forall i x y, Forall P (check i x y)) ->
  Forall P (per_index_diffs check idx l1 l2).
Proof.
  intros Hcheck. revert idx l2.
  induction l1 as [|x l1 IH]; intros idx [|y l2]; simpl; try constructor.
  apply Forall_app. split; [apply Hcheck | apply IH].
Qed.

Lemma has_class_record (classes : list string) (c p : string) (e a : value)
    (d : string) :
  c ∈ classes -> has_class classes (diff_record c p e a d).
Proof. intros Hc. exists c. split; [apply diff_record_class | exact Hc]. Qed.

Lemma diff_shaped_record (c p : string) (e a : value) (d : string) :
  diff_shaped (diff_record c p e a d).
Proof. exists c, p. split; [apply diff_record_class | apply diff_record_path]. Qed.

Ltac solve_class :=
  repeat first
    [ apply Forall_app; split
    | apply Forall_diff_if
    | apply Forall_per_index; intros
    | apply has_class_record; set_solver
    | apply diff_shaped_record ].

Lemma final_frame_diffs_class (b t : list Frame) :
  Forall (has_class ["final_frame_geometry"; "final_frame_hash_key"])
    (final_frame_diffs b t).
Proof.
  unfold final_frame_diffs.
  destruct (final_frame b) as [[[bc br] bk]|], (final_frame t) as [[[tc tr] tk]|];
    try constructor.
  solve_class.
Qed.

(** C8. The diffs come in the fixed order of the checks: the run_end scalars
    (status, outcome, frames), then resize_inputs (the length, then index by
    index over the overlapping prefix), then geometry_sequence (the length,
    then index by index), then the number of frames, then the final frame.
    Of the frames only their number and the geometry and hash_key of the
    last one are read: two pairs of signatures that agree there and on the
    other components give the same diffs, and the frame checks emit only the
    classes frame_count, final_frame_geometry and final_frame_hash_key. *)
Theorem compare_signatures_order (b t : Signature) :
  compare_signatures b t
  = Ok (run_end_diffs (run_end b) (run_end t)
        ++ resize_diffs (resize_inputs b) (resize_inputs t)
        ++ geometry_diffs (geometry_sequence b) (geometry_sequence t)
        ++ frame_count_diffs (frames b) (frames t)
        ++ final_frame_diffs (frames b) (frames t))
  /\ Forall (has_class ["run_end_mismatch"])
       (run_end_diffs (run_end b) (run_end t))
  /\ Forall (has_class ["resize_inputs_length"; "resize_input_geometry";
                        "resize_input_hash_key"])
       (resize_diffs (resize_inputs b) (resize_inputs t))
  /\ Forall (has_class ["geometry_sequence_length"; "geometry_sequence_value"])
       (geometry_diffs (geometry_sequence b) (geometry_sequence t))
  /\ Forall (has_class ["frame_count"]) (frame_count_diffs (frames b) (frames t))
  /\ Forall (has_class ["final_frame_geometry"; "final_frame_hash_key"])
       (final_frame_diffs (frames b) (frames t))
  /\ (forall b' t',
        compared_view b' = compared_view b ->
        compared_view t' = compared_view t ->
        compare_signatures b' t' = compare_signatures b t).
Proof.
  split; [apply compare_signatures_checks|].
  repeat split; try apply final_frame_diffs_class;
    try (unfold run_end_diffs, run_end_field_diffs, resize_diffs,
           geometry_diffs, frame_count_diffs, length_diffs,
           resize_index_diffs, geometry_index_diffs; by solve_class).
  intros b' t' [= Hb1 Hb2 Hb3 Hb4 Hb5] [= Ht1 Ht2 Ht3 Ht4 Ht5].
  rewrite !compare_signatures_checks.
  unfold frame_count_diffs, length_diffs, len_value, final_frame_diffs.
  by rewrite Hb1, Hb2, Hb3, Hb4, Hb5, Ht1, Ht2, Ht3, Ht4, Ht5.
Qed.

(** ** Rule matching *)

Lemma match_pair_sym (rule : KnownDivergence) (b t : string) :
  _match_pair rule b t = _match_pair rule t b.
Proof.
  unfold _match_pair.
  destruct (fnmatchcase b (left_browser_pattern rule)),
    (fnmatchcase t (right_browser_pattern rule)),
    (fnmatchcase b (right_browser_pattern rule)),
    (fnmatchcase t (left_browser_pattern rule)); reflexivity.
Qed.

Lemma find_rule_sym (diff : gmap string value) (b t : string)
    (rules : list KnownDivergence) :
  find_rule diff b t rules = find_rule diff t b rules.
Proof.
  induction rules as [|rule rules IH]; simpl; [reflexivity|].
  rewrite (match_pair_sym rule b t), IH. reflexivity.
Qed.

Lemma rule_matches_sym (rule : KnownDivergence) (c p b t : string) :
  rule_matches rule c p b t = rule_matches rule c p t b.
Proof. unfold rule_matches. f_equal. apply orb_comm. Qed.

(** The inner loop finds the first rule that matches. *)
Lemma find_rule_first (diff : gmap string value) (c p b t : string)
    (rules : list KnownDivergence) :
  diff !! "class" = Some (VStr c) ->
  diff !! "path" = Some (VStr p) ->
  find_rule diff b t rules
  = Ok (List.find (fun rule => rule_matches rule c p b t) rules).
Proof.
  intros Hc Hp. induction rules as [|rule rules IH]; simpl; [reflexivity|].
  unfold getitem_str. rewrite Hc, Hp. simpl. rewrite IH.
  unfold rule_matches, _match_pair.
  rewrite (andb_comm (fnmatchcase t (left_browser_pattern rule))).
  destruct (fnmatchcase c (class_pattern rule)); simpl; [|reflexivity].
  destruct (fnmatchcase p (path_pattern rule)); simpl; [|reflexivity].
  by destruct (_ || _).
Qed.

Lemma find_rule_matching (diff : gmap string value) (b t : string)
    (rules : list KnownDivergence) :
  diff_shaped diff ->
  find_rule diff b t rules = Ok (matching_rule rules b t diff).
Proof.
  intros (c & p & Hc & Hp). unfold matching_rule. rewrite Hc, Hp.
  by apply find_rule_first.
Qed.

Lemma find_first_app {A : Type} (f : A -> bool) (pre post : list A) (x : A) :
  Forall (fun y => f y = false) pre -> f x = true ->
  List.find f (pre ++ x :: post) = Some x.
Proof.
  intros Hpre Hx. induction Hpre as [|y pre Hy _ IH]; simpl.
  - by rewrite Hx.
  - by rewrite Hy.
Qed.

Lemma fnmatchcase_star (name : string) : fnmatchcase name "*" = true.
Proof.
  unfold fnmatchcase. simpl.
  induction (list_ascii_of_string name) as [|c l IH]; simpl; [reflexivity|].
  rewrite IH. by destruct l.
Qed.

Lemma classify_single (diff : gmap string value) (b t : string)
    (rules : list KnownDivergence) (rule : KnownDivergence) :
  find_rule diff b t rules = Ok (Some rule) ->
  classify_diffs [diff] b t rules = Ok ([known_entry b t diff rule], []).
Proof. intros Hfind. unfold classify_diffs. simpl. by rewrite Hfind. Qed.

(** C4 (as amended). Rule matching is symmetric in the browser pair: a rule
    matches with baseline [b] and target [t] iff it matches with baseline
    [t] and target [b], and the rule the classifier finds for a diff is the
    same in both orientations. For example a rule with left=firefox* and
    right=chrome* suppresses a diff its class and path patterns match both
    with baseline firefox99 and target chrome12 and the other way round. *)
Theorem rule_matching_symmetric (rule : KnownDivergence)
    (diff : gmap string value) (b t : string) :
  _match_pair rule b t = _match_pair rule t b
  /\ (forall c p, rule_matches rule c p b t = rule_matches rule c p t b)
  /\ (forall rules, find_rule diff b t rules = find_rule diff t b rules)
  /\ (left_browser_pattern rule = "firefox*" ->
      right_browser_pattern rule = "chrome*" ->
      forall c p,
        diff !! "class" = Some (VStr c) ->
        diff !! "path" = Some (VStr p) ->
        fnmatchcase c (class_pattern rule) = true ->
        fnmatchcase p (path_pattern rule) = true ->
        classify_diffs [diff] "firefox99" "chrome12" [rule]
        = Ok ([known_entry "firefox99" "chrome12" diff rule], [])
        /\ classify_diffs [diff] "chrome12" "firefox99" [rule]
           = Ok ([known_entry "chrome12" "firefox99" diff rule], [])).
Proof.
  split; [apply match_pair_sym|].
  split; [intros c p; apply rule_matches_sym|].
  split; [intros rules; apply find_rule_sym|].
  intros Hl Hr c p Hc Hp Hclass Hpath.
  assert (rule_matches rule c p "firefox99" "chrome12" = true) as Hfwd.
  { unfold rule_matches. rewrite Hclass, Hpath, Hl, Hr. reflexivity. }
  split; apply classify_single; rewrite (find_rule_first _ c p) by done; simpl.
  - by rewrite Hfwd.
  - by rewrite <- rule_matches_sym, Hfwd.
Qed.

Lemma rule_matching_symmetric_witness :
  classify_diffs [frame_count_diff] "firefox99" "chrome12" [cadence_rule]
  = Ok ([known_entry "firefox99" "chrome12" frame_count_diff cadence_rule], [])
  /\ classify_diffs [frame_count_diff] "chrome12" "firefox99" [cadence_rule]
     = Ok ([known_entry "chrome12" "firefox99" frame_count_diff cadence_rule], []).
Proof.
  apply (proj2 (proj2 (proj2
           (rule_matching_symmetric cadence_rule frame_count_diff
              "firefox99" "chrome12")))
           eq_refl eq_refl "frame_count" "frames.length");
    vm_compute; reflexivity.
Defined.

(** C4 as stated fails on its example: the patterns firefoxish* and
    chromish* match neither firefox99 nor chrome12, so the rule suppresses
    the diff in neither orientation. *)
Lemma rule_symmetry_counterexample :
  fnmatchcase "firefox99" "firefoxish*" = false
  /\ fnmatchcase "chrome12" "chromish*" = false
  /\ classify_diffs [frame_count_diff] "firefox99" "chrome12" [ish_rule]
     = Ok ([], [with_context frame_count_diff "firefox99" "chrome12"])
  /\ classify_diffs [frame_count_diff] "chrome12" "firefox99" [ish_rule]
     = Ok ([], [with_context frame_count_diff "chrome12" "firefox99"]).
Proof. repeat split; vm_compute; reflexivity. Qed.

(** C5. Rules are scanned in list order and the first rule whose class,
    path and browser patterns all match wins: when no rule before [rule]
    matches the diff and [rule] does, the classifier stops at [rule] and
    attaches its rationale, whatever rules follow it. *)
Theorem first_match_wins (diff : gmap string value) (c p b t : string)
    (pre post : list KnownDivergence) (rule : KnownDivergence) :
  diff !! "class" = Some (VStr c) ->
  diff !! "path" = Some (VStr p) ->
  Forall (fun r => rule_matches r c p b t = false) pre ->
  rule_matches rule c p b t = true ->
  find_rule diff b t (pre ++ rule :: post) = Ok (Some rule)
  /\ classify_diffs [diff] b t (pre ++ rule :: post)
     = Ok ([<["known_rationale" := VStr (rationale rule)]>
              (with_context diff b t)], []).
Proof.
  intros Hc Hp Hpre Hrule.
  assert (find_rule diff b t (pre ++ rule :: post) = Ok (Some rule)) as Hfind.
  { rewrite (find_rule_first _ c p) by done. f_equal.
    by apply find_first_app. }
  split; [exact Hfind | by apply classify_single].
Qed.

Lemma first_match_wins_witness :
  find_rule frame_count_diff "firefox99" "chrome12"
    [resize_rule; cadence_rule; catch_all_rule] = Ok (Some cadence_rule)
  /\ classify_diffs [frame_count_diff] "firefox99" "chrome12"
       [resize_rule; cadence_rule; catch_all_rule]
     = Ok ([<["known_rationale" := VStr "repaint cadence differs"]>
              (with_context frame_count_diff "firefox99" "chrome12")], []).
Proof.
  apply (first_match_wins frame_count_diff "frame_count" "frames.length"
           "firefox99" "chrome12" [resize_rule] [catch_all_rule] cadence_rule).
  - reflexivity.
  - reflexivity.
  - repeat constructor.
  - vm_compute; reflexivity.
Defined.

(** ** Classification is a partition *)

Lemma classify_loop (b t : string) (rules : list KnownDivergence)
    (diffs known unknown : list (gmap string value)) :
  Forall diff_shaped diffs ->
  for_each (classify_one b t rules) diffs (known, unknown)
  = Ok (known ++ omap (known_of rules b t) diffs,
        unknown ++ omap (unknown_of rules b t) diffs).
Proof.
  intros Hshaped. revert known unknown.
  induction Hshaped as [|d diffs Hd _ IH]; intros known unknown; simpl.
  { by rewrite !app_nil_r. }
  rewrite (find_rule_matching _ _ _ _ Hd). simpl.
  unfold known_of, unknown_of.
  destruct (matching_rule rules b t d) as [rule|]; simpl;
    rewrite IH, <- ?app_assoc; reflexivity.
Qed.

Lemma classify_diffs_omap (b t : string) (rules : list KnownDivergence)
    (diffs : list (gmap string value)) :
  Forall diff_shaped diffs ->
  classify_diffs diffs b t rules
  = Ok (omap (known_of rules b t) diffs, omap (unknown_of rules b t) diffs).
Proof. intros H. unfold classify_diffs. by rewrite classify_loop. Qed.

Lemma omap_cons_case {A B : Type} (f : A -> option B) (x : A) (l : list A) :
  omap f (x :: l)
  = match f x with Some y => y :: omap f l | None => omap f l end.
Proof. reflexivity. Qed.

Lemma partition_length (b t : string) (rules : list KnownDivergence)
    (diffs : list (gmap string value)) :
  (length (omap (known_of rules b t) diffs)
   + length (omap (unknown_of rules b t) diffs))%nat = length diffs.
Proof.
  induction diffs as [|d diffs IH]; [reflexivity|].
  rewrite !omap_cons_case. unfold known_of at 1, unknown_of at 1.
  destruct (matching_rule rules b t d); simpl; lia.
Qed.

Lemma points_to_prefix (h h' : list (gmap string value)) (ref : nat)
    (d : gmap string value) :
  h `prefix_of` h' -> points_to h ref d -> points_to h' ref d.
Proof. intros Hpre Hd. by eapply prefix_lookup_Some. Qed.

Lemma points_to_all_prefix (h h' : list (gmap string value)) (refs : list nat)
    (ds : list (gmap string value)) :
  h `prefix_of` h' -> Forall2 (points_to h) refs ds ->
  Forall2 (points_to h') refs ds.
Proof.
  intros Hpre Hall. eapply Forall2_impl; [exact Hall|].
  intros ref d. by apply points_to_prefix.
Qed.

Lemma classify_one_obj_step (b t : string) (rules : list KnownDivergence)
    (h : list (gmap string value)) (known unknown : list nat) (ref : nat)
    (d : gmap string value) :
  points_to h ref d -> diff_shaped d ->
  classify_one_obj b t rules (h, (known, unknown)) ref
  = Ok match matching_rule rules b t d with
       | Some rule =>
           (h ++ [with_context d b t; known_entry b t d rule],
            (known ++ [S (length h)], unknown))
       | None => (h ++ [with_context d b t], (known, unknown ++ [length h]))
       end.
Proof.
  intros Href Hd. unfold classify_one_obj, deref, getitem, new_dict.
  rewrite Href, bind_Ok, (find_rule_matching _ _ _ _ Hd), bind_Ok.
  destruct (matching_rule rules b t d) as [rule|]; [|reflexivity].
  rewrite lookup_app_r, Nat.sub_diag by lia. simpl.
  rewrite <- app_assoc, length_app, Nat.add_1_r. reflexivity.
Qed.

Lemma classify_obj_loop (b t : string) (rules : list KnownDivergence)
    (refs : list nat) (diffs : list (gmap string value)) :
  Forall diff_shaped diffs ->
  forall (h : list (gmap string value)) (known unknown : list nat)
         (kp up : list (gmap string value)),
    Forall2 (points_to h) refs diffs ->
    Forall2 (points_to h) known kp ->
    Forall2 (points_to h) unknown up ->
    exists h' newk newu,
      for_each (classify_one_obj b t rules) refs (h, (known, unknown))
      = Ok (h', (known ++ newk, unknown ++ newu))
      /\ h `prefix_of` h'
      /\ Forall2 (points_to h') (known ++ newk)
           (kp ++ omap (known_of rules b t) diffs)
      /\ Forall2 (points_to h') (unknown ++ newu)
           (up ++ omap (unknown_of rules b t) diffs)
      /\ Forall (fun ref => (length h <= ref)%nat) (newk ++ newu).
Proof.
  intros Hshaped. revert refs.
  induction Hshaped as [|d diffs Hd _ IH];
    intros refs h known unknown kp up Hrefs Hk Hu.
  { apply Forall2_nil_inv_r in Hrefs as ->. exists h, [], []. simpl.
    rewrite !app_nil_r. by repeat split. }
  apply Forall2_cons_inv_r in Hrefs as (ref & refs' & Hd0 & Hrefs' & ->).
  cbn [for_each]. rewrite (classify_one_obj_step _ _ _ _ _ _ _ d Hd0 Hd), bind_Ok.
  rewrite !omap_cons_case. unfold known_of at 1, unknown_of at 1.
  destruct (matching_rule rules b t d) as [rule|] eqn:Hrule;
    cbn [fmap option_fmap option_map].
  - set (h2 := h ++ [with_context d b t; known_entry b t d rule]).
    assert (h `prefix_of` h2) as Hpre by by apply prefix_app_r.
    destruct (IH refs' h2 (known ++ [S (length h)]) unknown
                (kp ++ [known_entry b t d rule]) up)
      as (h' & newk & newu & Hrun & Hpre' & Hk' & Hu' & Hfresh).
    { by eapply points_to_all_prefix. }
    { apply Forall2_app; [by eapply points_to_all_prefix|].
      repeat constructor. unfold points_to, h2.
      rewrite lookup_app_r by lia.
      by replace (S (length h) - length h)%nat with 1%nat by lia. }
    { by eapply points_to_all_prefix. }
    exists h', (S (length h) :: newk), newu.
    rewrite <- !app_assoc in Hrun. rewrite <- !app_assoc in Hk'.
    split; [exact Hrun|]. split; [by etrans|].
    split; [exact Hk'|]. split; [exact Hu'|].
    constructor; [lia|].
    eapply Forall_impl; [exact Hfresh|]. intros r. unfold h2.
    rewrite !length_app. simpl. lia.
  - set (h2 := h ++ [with_context d b t]).
    assert (h `prefix_of` h2) as Hpre by by apply prefix_app_r.
    destruct (IH refs' h2 known (unknown ++ [length h]) kp
                (up ++ [with_context d b t]))
      as (h' & newk & newu & Hrun & Hpre' & Hk' & Hu' & Hfresh).
    { by eapply points_to_all_prefix. }
    { by eapply points_to_all_prefix. }
    { apply Forall2_app; [by eapply points_to_all_prefix|].
      repeat constructor. unfold points_to, h2.
      rewrite lookup_app_r, Nat.sub_diag by lia. done. }
    exists h', newk, (length h :: newu).
    rewrite <- !app_assoc in Hrun. rewrite <- !app_assoc in Hu'.
    split; [exact Hrun|]. split; [by etrans|].
    split; [exact Hk'|]. split; [exact Hu'|].
    apply Forall_app. apply Forall_app in Hfresh as [Hfk Hfu].
    split; [|constructor; [lia|]];
      (eapply Forall_impl; [eassumption|]); intros r; unfold h2;
      rewrite length_app; simpl; lia.
Qed.

Lemma with_context_lookup (d : gmap string value) (b t key : string) :
  key <> "baseline_browser" -> key <> "target_browser" ->
  with_context d b t !! key = d !! key.
Proof.
  intros Hb Ht. unfold with_context.
  rewrite lookup_insert_ne by done. by rewrite lookup_insert_ne.
Qed.

(** C9. Classification partitions the diffs. With the diffs held by
    reference in a store, [classify_diffs] returns two lists of new
    objects: [known] holds, in input order, one entry for each diff some
    rule matches, [unknown] one entry for each diff no rule matches, so
    every diff goes to exactly one list and the two lengths add up to the
    number of diffs. An entry is the diff with the two context fields added
    (and the rationale of the matching rule for a known one), all other
    keys unchanged. The store only grows: every existing object, the input
    diffs among them, is as before. *)
Theorem classify_diffs_partition (store : list (gmap string value))
    (refs : list nat) (diffs : list (gmap string value)) (b t : string)
    (rules : list KnownDivergence) :
  Forall2 (points_to store) refs diffs ->
  Forall diff_shaped diffs ->
  exists store' known unknown,
    classify_diffs_obj store refs b t rules = Ok (store', (known, unknown))
    /\ store `prefix_of` store'
    /\ Forall2 (points_to store') refs diffs
    /\ Forall (fun ref => (length store <= ref)%nat) (known ++ unknown)
    /\ Forall2 (points_to store') known (omap (known_of rules b t) diffs)
    /\ Forall2 (points_to store') unknown (omap (unknown_of rules b t) diffs)
    /\ classify_diffs diffs b t rules
       = Ok (omap (known_of rules b t) diffs, omap (unknown_of rules b t) diffs)
    /\ (length known + length unknown)%nat = length refs
    /\ (forall d, known_of rules b t d = None <-> is_Some (unknown_of rules b t d))
    /\ (forall d key,
          key <> "baseline_browser" -> key <> "target_browser" ->
          with_context d b t !! key = d !! key)
    /\ (forall d,
          with_context d b t !! "baseline_browser" = Some (VStr b)
          /\ with_context d b t !! "target_browser" = Some (VStr t))
    /\ (forall d rule key,
          key <> "known_rationale" ->
          known_entry b t d rule !! key = with_context d b t !! key)
    /\ (forall d rule,
          known_entry b t d rule !! "known_rationale"
          = Some (VStr (rationale rule))).
Proof.
  intros Hrefs Hshaped.
  destruct (classify_obj_loop b t rules refs diffs Hshaped store [] [] [] []
              Hrefs) as (h' & known & unknown & Hrun & Hpre & Hk & Hu & Hfresh);
    [constructor | constructor |].
  simpl in Hrun, Hk, Hu.
  exists h', known, unknown.
  split; [exact Hrun|]. split; [exact Hpre|].
  split; [by eapply points_to_all_prefix|].
  split; [exact Hfresh|]. split; [exact Hk|]. split; [exact Hu|].
  split; [by apply classify_diffs_omap|].
  split.
  { rewrite (Forall2_length _ _ _ Hk), (Forall2_length _ _ _ Hu).
    rewrite (Forall2_length _ _ _ Hrefs). apply partition_length. }
  split.
  { intros d. unfold known_of, unknown_of.
    destruct (matching_rule rules b t d); simpl; split;
      (done || by intros []). }
  split; [intros d key; apply with_context_lookup|].
  split.
  { intros d. unfold with_context.
    by rewrite lookup_insert_ne, !lookup_insert_eq. }
  split.
  { intros d rule key Hkey. unfold known_entry.
    by rewrite lookup_insert_ne. }
  intros d rule. unfold known_entry. by rewrite lookup_insert_eq.
Qed.

Lemma classify_diffs_partition_witness :
  exists store' known unknown,
    classify_diffs_obj two_diffs [0; 1; 0]%nat "firefox99" "chrome12"
      [cadence_rule]
    = Ok (store', (known, unknown))
    /\ store' !! 0%nat = Some frame_count_diff
    /\ store' !! 1%nat = Some resize_length_diff
    /\ (length known + length unknown = 3)%nat.
Proof.
  destruct (classify_diffs_partition two_diffs [0; 1; 0]%nat
              [frame_count_diff; resize_length_diff; frame_count_diff]
              "firefox99" "chrome12" [cadence_rule])
    as (store' & known & unknown & Hrun & _ & Hrefs & _ & _ & _ & _ & Hlen & _).
  - repeat constructor.
  - repeat constructor; apply diff_shaped_record.
  - exists store', known, unknown.
    split; [exact Hrun|].
    apply Forall2_cons_1 in Hrefs as [H0 Hrefs].
    apply Forall2_cons_1 in Hrefs as [H1 _].
    split; [exact H0|]. split; [exact H1 | exact Hlen].
Defined.

(** ** Rule lines with more than five fields *)

Lemma split_empty_inv (sep : ascii) (s : string) (p0 p1 : string)
    (rest : list string) :
  split sep s = p0 :: p1 :: rest -> str_is_empty s = false.
Proof. by destruct s. Qed.

Lemma string_app_assoc (s1 s2 s3 : string) :
  (s1 +:+ s2) +:+ s3 = s1 +:+ s2 +:+ s3.
Proof.
  induction s1 as [|c s1 IH]; [done|].
  change (String c ((s1 +:+ s2) +:+ s3) = String c (s1 +:+ s2 +:+ s3)).
  by rewrite IH.
Qed.

Lemma string_app_nil_r (s : string) : s +:+ "" = s.
Proof.
  induction s as [|c s IH]; [done|].
  change (String c (s +:+ "") = String c s). by rewrite IH.
Qed.

Lemma rev_app_append (s1 s2 : string) :
  String.rev_app s1 s2 = String.rev s1 +:+ s2.
Proof.
  unfold String.rev. revert s2.
  induction s1 as [|c s1 IH]; intros s2; [done|].
  simpl. rewrite IH, (IH (String c "")), string_app_assoc. done.
Qed.

Lemma split_go_cur (sep : ascii) (cur s : string) :
  split_go sep cur s
  = match split sep s with
    | a :: r => (String.rev cur +:+ a) :: r
    | [] => []
    end.
Proof.
  unfold split. revert cur. induction s as [|c s IH]; intros cur; simpl.
  - by rewrite string_app_nil_r.
  - destruct (Ascii.eqb c sep).
    + by rewrite string_app_nil_r.
    + rewrite IH, (IH (String c "")).
      destruct (split_go sep "" s) as [|a r]; [done|].
      f_equal. unfold String.rev. simpl.
      by rewrite rev_app_append, string_app_assoc.
Qed.

Lemma split_String (sep c : ascii) (s : string) :
  split sep (String c s)
  = if Ascii.eqb c sep then EmptyString :: split sep s
    else match split sep s with
         | a :: r => String c a :: r
         | [] => []
         end.
Proof.
  unfold split at 1. simpl. destruct (Ascii.eqb c sep); [done|].
  by rewrite split_go_cur.
Qed.

Lemma split_empty (sep : ascii) : split sep EmptyString = [EmptyString].
Proof. reflexivity. Qed.

Lemma split_nonempty (sep : ascii) (s : string) : split sep s <> [].
Proof.
  induction s as [|c s IH]; [done|]. rewrite split_String.
  destruct (Ascii.eqb c sep); [done|]. by destruct (split sep s).
Qed.

Lemma split_single (sep : ascii) (s a : string) : split sep s = [a] -> s = a.
Proof.
  revert a. induction s as [|c s IH]; intros a.
  - by intros [= <-].
  - rewrite split_String. destruct (Ascii.eqb c sep).
    + intros [= _ H]. by destruct (split_nonempty sep s).
    + destruct (split sep s) as [|a' r]; [done|].
      intros [= <- ->]. by rewrite (IH a').
Qed.

Lemma rstrip_by_empty (space : ascii -> bool) (s : string) :
  rstrip_by space s = EmptyString -> lstrip_by space s = EmptyString.
Proof.
  induction s as [|c s IH]; [done|]. simpl.
  destruct (rstrip_by space s); [|done].
  destruct (space c); [by intros _; apply IH|done].
Qed.

Lemma lstrip_by_idem (space : ascii -> bool) (s : string) :
  lstrip_by space (lstrip_by space s) = lstrip_by space s.
Proof.
  induction s as [|c s IH]; [done|]. simpl.
  destruct (space c) eqn:Hc; [done|]. simpl. by rewrite Hc.
Qed.

Lemma strip_lstrip (s : string) : strip (lstrip_by py_isspace s) = strip s.
Proof. unfold strip. by rewrite lstrip_by_idem. Qed.

Lemma split_lstrip (s p0 : string) (rest : list string) :
  split tab s = p0 :: rest ->
  lstrip_by py_isspace p0 <> EmptyString ->
  split tab (lstrip_by py_isspace s) = lstrip_by py_isspace p0 :: rest.
Proof.
  revert p0. induction s as [|c s IH]; intros p0.
  - by intros [= <- <-].
  - rewrite split_String. destruct (Ascii.eqb c tab) eqn:Hc.
    + by intros [= <- <-].
    + destruct (split tab s) as [|a r] eqn:Hs; [done|].
      intros [= <- <-]. cbn [lstrip_by].
      destruct (py_isspace c).
      * intros Ha. by apply IH.
      * intros _. by rewrite split_String, Hc, Hs.
Qed.

Lemma split_rstrip (s pl : string) (init : list string) :
  split tab s = init ++ [pl] ->
  rstrip_by py_isspace pl <> EmptyString ->
  split tab (rstrip_by py_isspace s) = init ++ [rstrip_by py_isspace pl].
Proof.
  revert init pl. induction s as [|c s IH]; intros init pl.
  - destruct init as [|x [|y init]]; [by intros [= <-]|done|done].
  - rewrite split_String. destruct (Ascii.eqb c tab) eqn:Hc.
    + destruct init as [|x init].
      { intros [= _ H]. by destruct (split_nonempty tab s). }
      intros [= <- Hs] Hpl. specialize (IH init pl Hs Hpl).
      cbn [rstrip_by].
      destruct (rstrip_by py_isspace s) as [|c' r] eqn:Hr.
      * rewrite split_empty in IH.
        destruct init as [|y [|z init]]; simplify_eq/=; congruence.
      * by rewrite split_String, Hc, IH.
    + destruct (split tab s) as [|a r] eqn:Hs; [by destruct init|].
      destruct init as [|x init].
      * intros [= <- ->] Hpl.
        pose proof (split_single _ _ _ Hs) as ->.
        revert Hpl. cbn [rstrip_by].
        destruct (rstrip_by py_isspace a) as [|c' r'] eqn:Hr.
        -- destruct (py_isspace c); [done|]. intros _.
           by rewrite split_String, Hc.
        -- intros _. rewrite split_String, Hc.
           rewrite (IH [] a eq_refl) by by rewrite Hr.
           simpl. by rewrite Hr.
      * intros [= <- ->] Hpl.
        specialize (IH (a :: init) pl eq_refl Hpl).
        cbn [rstrip_by].
        destruct (rstrip_by py_isspace s) as [|c' r'] eqn:Hr.
        -- rewrite split_empty in IH. destruct init as [|y init]; simplify_eq/=.
        -- by rewrite split_String, Hc, IH.
Qed.

Lemma strip_nonempty_lstrip (s : string) :
  strip s <> EmptyString -> lstrip_by py_isspace s <> EmptyString.
Proof. unfold strip. intros H Hl. apply H. by rewrite Hl. Qed.

Lemma strip_nonempty_rstrip (s : string) :
  strip s <> EmptyString -> rstrip_by py_isspace s <> EmptyString.
Proof.
  unfold strip. intros H Hr. apply H.
  by rewrite (rstrip_by_empty _ _ Hr).
Qed.

Lemma split_strip (line p0 pl : string) (mid : list string) :
  split tab line = p0 :: mid ++ [pl] ->
  strip p0 <> EmptyString ->
  strip pl <> EmptyString ->
  split tab (strip line)
  = lstrip_by py_isspace p0 :: mid ++ [rstrip_by py_isspace pl].
Proof.
  intros Hsplit Hp0 Hpl. unfold strip.
  apply strip_nonempty_lstrip in Hp0. apply strip_nonempty_rstrip in Hpl.
  apply (split_lstrip _ _ _ Hsplit) in Hp0.
  by apply (split_rstrip _ pl (lstrip_by py_isspace p0 :: mid)).
Qed.
Lemma parse_rule_line_fields (path : string) (idx : nat) (line : string)
    (rules : list KnownDivergence) (p0 p1 p2 p3 p4 p5 : string)
    (extra : list string) :
  split tab (strip line) = p0 :: p1 :: p2 :: p3 :: p4 :: p5 :: extra ->
  startswith (strip line) "#" = false ->
  parse_rule_line path rules (idx, line)
  = Ok (rules ++
          [{| class_pattern := or_star (strip p0);
              left_browser_pattern := or_star (strip p1);
              right_browser_pattern := or_star (strip p2);
              path_pattern := or_star (strip p3);
              rationale := strip p4 |}]).
Proof.
  intros Hsplit Hcomment. unfold parse_rule_line.
  rewrite (split_empty_inv _ _ _ _ _ Hsplit), Hcomment, Hsplit.
  reflexivity.
Qed.

(** C10 (as amended). A rule line that is not a comment, splits into more
    than five tab-separated fields and has a first and a last field that
    are not blank is accepted: the rule is made of the first five fields of
    the line, each stripped (an empty pattern cell becoming ["*"]), so the
    rationale is the stripped fifth field and the text after the fifth tab
    is discarded. *)
Theorem rule_line_extra_fields (path : string) (idx : nat) (line : string)
    (rules : list KnownDivergence) (p0 p1 p2 p3 p4 p5 pl : string)
    (extra : list string) :
  split tab line = p0 :: p1 :: p2 :: p3 :: p4 :: p5 :: extra ->
  last (p5 :: extra) = Some pl ->
  strip p0 <> EmptyString ->
  strip pl <> EmptyString ->
  startswith (strip line) "#" = false ->
  parse_rule_line path rules (idx, line)
  = Ok (rules ++
          [{| class_pattern := or_star (strip p0);
              left_browser_pattern := or_star (strip p1);
              right_browser_pattern := or_star (strip p2);
              path_pattern := or_star (strip p3);
              rationale := strip p4 |}])
  /\ parse_known_divergences path [line]
     = Ok [{| class_pattern := or_star (strip p0);
              left_browser_pattern := or_star (strip p1);
              right_browser_pattern := or_star (strip p2);
              path_pattern := or_star (strip p3);
              rationale := strip p4 |}].
Proof.
  intros Hsplit Hlast Hp0 Hpl Hcomment.
  apply last_Some in Hlast as [init Hinit].
  rewrite Hinit in Hsplit.
  pose proof (split_strip line p0 pl (p1 :: p2 :: p3 :: p4 :: init)
                Hsplit Hp0 Hpl) as Hstripped.
  assert (exists p5' extra',
            split tab (strip line)
            = lstrip_by py_isspace p0 :: p1 :: p2 :: p3 :: p4 :: p5' :: extra')
    as (p5' & extra' & Hfields).
  { rewrite Hstripped. destruct init as [|x init]; by eexists _, _. }
  assert (forall rs n,
            parse_rule_line path rs (n, line)
            = Ok (rs ++
                    [{| class_pattern := or_star (strip p0);
                        left_browser_pattern := or_star (strip p1);
                        right_browser_pattern := or_star (strip p2);
                        path_pattern := or_star (strip p3);
                        rationale := strip p4 |}])) as Hline.
  { intros rs n.
    rewrite (parse_rule_line_fields path n line rs _ _ _ _ _ _ _
               Hfields Hcomment).
    by rewrite strip_lstrip. }
  split; [apply Hline|].
  change (parse_known_divergences path [line])
    with (parse_rule_line path [] (1%nat, line)
          ≫= for_each (parse_rule_line path) []).
  by rewrite Hline.
Qed.

Lemma rule_line_extra_fields_witness :
  parse_known_divergences "known.tsv" [long_line]
  = Ok [{| class_pattern := "frame_*"; left_browser_pattern := "firefox*";
           right_browser_pattern := "chrome*"; path_pattern := "*";
           rationale := "repaint cadence" |}].
Proof.
  apply (rule_line_extra_fields "known.tsv" 1 long_line []
           "frame_*" "firefox*" "chrome*" "*" " repaint cadence "
           "see the tracker" "see the tracker" []);
    vm_compute; (reflexivity || discriminate).
Defined.

(** C10 as stated fails on the code: the rationale is the fifth field
    stripped, not the field itself. *)
Lemma rule_line_counterexample :
  split tab long_line
  = ["frame_*"; "firefox*"; "chrome*"; "*"; " repaint cadence ";
     "see the tracker"]
  /\ exists rule,
       parse_known_divergences "known.tsv" [long_line] = Ok [rule]
       /\ rationale rule = "repaint cadence"
       /\ Some (rationale rule) <> split tab long_line !! 4%nat.
Proof.
  split; [vm_compute; reflexivity|].
  eexists. split; [vm_compute; reflexivity|].
  split; [reflexivity|]. vm_compute. discriminate.
Qed.

(** ** Statuses *)

Lemma mode_status_not_pass (mode : string) : mode_status mode <> "pass".
Proof. unfold mode_status. by destruct (String.eqb mode "warn"). Qed.

Lemma status_rule_new (mode baseline target : string) (n : nat)
    (known unknown : list (gmap string value)) :
  status_rule mode
    {| cmp_baseline_browser := baseline; cmp_target_browser := target;
       cmp_total_diffs := n; known_diffs := known; unknown_diffs := unknown;
       cmp_status := if negb (nonempty unknown) then "pass"
                     else mode_status mode |}.
Proof.
  unfold status_rule. simpl. destruct unknown as [|d unknown]; simpl.
  - by repeat split.
  - split; [split; [by intros ?%mode_status_not_pass | done] | done].
Qed.

(** What the comparison loop maintains. *)
Definition totals_inv (mode : string) (st : Totals) : Prop :=
  Forall (status_rule mode) (acc_comparisons st)
  /\ total_unknown st
     = length (concat (unknown_diffs <$> acc_comparisons st)).

Lemma compare_one_inv (mode baseline : string) (rules : list KnownDivergence)
    (signatures : gmap string Signature) (st st' : Totals) (browser : string) :
  totals_inv mode st ->
  compare_one mode baseline rules signatures st browser = Ok st' ->
  totals_inv mode st'.
Proof.
  intros [Hrule Htotal]. unfold compare_one.
  destruct (String.eqb browser baseline); [by intros [= <-]|].
  intros (bsig & _ & H)%bind_Ok_inv.
  apply bind_Ok_inv in H as (tsig & _ & H).
  apply bind_Ok_inv in H as (raw & _ & H).
  apply bind_Ok_inv in H as ([known unknown] & _ & H).
  injection H as <-. split; simpl.
  - apply Forall_app. split; [exact Hrule|].
    constructor; [apply status_rule_new | constructor].
  - rewrite fmap_app, concat_app, length_app, Htotal. simpl.
    by rewrite app_nil_r.
Qed.

Lemma severity_le (mode : string) (c : Comparison) (overall : string) :
  status_rule mode c ->
  (unknown_diffs c <> [] -> overall = mode_status mode) ->
  (severity (cmp_status c) <= severity overall)%nat.
Proof.
  intros (Hpass & Hmode) Hoverall.
  destruct (unknown_diffs c) as [|d u] eqn:Hu.
  - rewrite (proj2 Hpass eq_refl). unfold severity. simpl. lia.
  - rewrite Hoverall, Hmode by done. lia.
Qed.

Lemma concat_nil_Forall {A : Type} (ls : list (list A)) :
  concat ls = [] <-> Forall (fun l => l = []) ls.
Proof.
  induction ls as [|l ls IH]; simpl.
  - split; [constructor | done].
  - rewrite Forall_cons, <- IH. split.
    + by intros [-> ->]%app_eq_nil.
    + by intros [-> ->].
Qed.

(** C3. Every comparison of a report has status "pass" iff its list of
    unknown diffs is empty, and otherwise the status of the mode: "warn" in
    warn mode, "fail" in strict mode. The overall status is "pass" iff
    every comparison passes, equivalently iff no comparison has an unknown
    diff, and otherwise the status of the mode; so it is never better than
    the status of any comparison. *)
Theorem status_rollup
    (load_jsonl : string -> result (list (gmap string json)))
    (read_lines : string -> result (list string))
    (args : Args) (report : Report) :
  build_report load_jsonl read_lines args = Ok report ->
  Forall (status_rule (mode args)) (comparisons report)
  /\ mode_status "warn" = "warn"
  /\ mode_status "strict" = "fail"
  /\ (overall_status (summary report) = "pass"
      <-> Forall (fun c => cmp_status c = "pass") (comparisons report))
  /\ (overall_status (summary report) = "pass"
      <-> concat (unknown_diffs <$> comparisons report) = [])
  /\ (overall_status (summary report) <> "pass" ->
      overall_status (summary report) = mode_status (mode args))
  /\ Forall (fun c => (severity (cmp_status c)
                       <= severity (overall_status (summary report)))%nat)
       (comparisons report).
Proof.
  unfold build_report.
  intros (traces & _ & H)%bind_Ok_inv.
  apply bind_Ok_inv in H as (baseline_browser & _ & H).
  destruct (negb _); [discriminate|].
  apply bind_Ok_inv in H as (known_rules & _ & H).
  apply bind_Ok_inv in H as (signatures & _ & H).
  apply bind_Ok_inv in H as (st & Hloop & H).
  injection H as <-. simpl.
  assert (totals_inv (mode args) st) as [Hrule Htotal].
  { eapply for_each_inv; [|intros s0 x s1 _; apply compare_one_inv|exact Hloop].
    split; [constructor | reflexivity]. }
  set (unknowns := concat (unknown_diffs <$> acc_comparisons st)) in *.
  assert (unknowns = [] <->
          Forall (fun c => cmp_status c = "pass") (acc_comparisons st))
    as Hall.
  { unfold unknowns. rewrite concat_nil_Forall, Forall_fmap.
    split; intros Hall; eapply Forall_impl;
      try (apply Forall_and; split; [exact Hrule | exact Hall]);
      intros c [[Hpass _] Hc]; by apply Hpass. }
  assert ((0 <? total_unknown st)%nat = false <-> unknowns = []) as Hzero.
  { rewrite Htotal, Nat.ltb_ge. destruct unknowns; simpl; split;
      (done || lia). }
  split; [exact Hrule|]. split; [reflexivity|]. split; [reflexivity|].
  destruct (0 <? total_unknown st)%nat eqn:Hpos.
  - assert (unknowns <> []) as Hne.
    { intros Hnil. apply Hzero in Hnil. discriminate. }
    split; [|split; [|split]].
    + split; [by intros ?%mode_status_not_pass | by intros ?%Hall].
    + split; [by intros ?%mode_status_not_pass | done].
    + done.
    + eapply Forall_impl; [exact Hrule|]. intros c Hc.
      by eapply severity_le.
  - assert (unknowns = []) as Hnil by by apply Hzero.
    split; [|split; [|split]].
    + split; [intros _; by apply Hall | done].
    + done.
    + done.
    + apply concat_nil_Forall in Hnil. rewrite Forall_fmap in Hnil.
      eapply Forall_impl; [apply Forall_and; split; [exact Hrule | exact Hnil]|].
      intros c [Hc Hu]. eapply severity_le; [exact Hc|]. by intros [].
Qed.

Lemma status_rollup_witness :
  exists report,
    build_report sample_load sample_read (sample_args "strict") = Ok report
    /\ cmp_status <$> comparisons report = ["pass"; "fail"]
    /\ overall_status (summary report) = "fail"
    /\ Forall (fun c => (severity (cmp_status c)
                         <= severity (overall_status (summary report)))%nat)
         (comparisons report).
Proof.
  eexists. split; [vm_compute; reflexivity|].
  split; [reflexivity|]. split; [reflexivity|].
  apply (status_rollup sample_load sample_read (sample_args "strict")).
  vm_compute; reflexivity.
Defined.

(** The sample run end to end, with a file system and streams that do not
    fail: of the two comparisons only the one with the duplicated resize
    diverges, by the single diff [resize_inputs_length] with expected 1 and
    actual 2, which no rule suppresses; warn mode reports "warn" and exits
    0, strict mode reports "fail" and exits 1. The report is written first,
    then the four lines are printed. *)
Example sample_run_exit_codes :
  exists report_warn report_strict,
    main sample_load sample_read quiet_write quiet_print quiet_print_error
      20 "report.json" (sample_args "warn")
    = (Wrote "report.json" report_warn
       :: (Printed
             <$> ["[DIFF] baseline=chrome comparisons=2 known=0 unknown=1 mode=warn";
                  "[DIFF] Unknown divergences:";
                  "  - chrome vs safari resize_inputs_length resize_inputs.length expected=1 actual=2";
                  "[DIFF] Report: report.json"]),
       Ok 0)
    /\ main sample_load sample_read quiet_write quiet_print quiet_print_error
         20 "report.json" (sample_args "strict")
       = (Wrote "report.json" report_strict
          :: (Printed
                <$> ["[DIFF] baseline=chrome comparisons=2 known=0 unknown=1 mode=strict";
                     "[DIFF] Unknown divergences:";
                     "  - chrome vs safari resize_inputs_length resize_inputs.length expected=1 actual=2";
                     "[DIFF] Report: report.json"]),
          Ok 1)
    /\ summary report_warn
       = {| total_comparisons := 2; sum_total_diffs := 1;
            sum_known_diffs := 0; sum_unknown_diffs := 1;
            overall_status := "warn" |}
    /\ overall_status (summary report_strict) = "fail"
    /\ (fun c => (cmp_target_browser c, unknown_diffs c))
         <$> comparisons report_warn
       = [("firefox", []);
          ("safari", [with_context resize_length_diff "chrome" "safari"])].
Proof.
  do 2 eexists. split; [vm_compute; reflexivity|].
  split; [vm_compute; reflexivity|].
  repeat split; vm_compute; reflexivity.
Qed.

(** A trace without a run_end event: nothing is written or printed but the
    error line, and the exit code is 2. *)
Example missing_run_end_exit_code :
  main (fun _ => Ok [frame_event (JInt 80) (JInt 24) "k0"]) sample_read
    quiet_write quiet_print quiet_print_error 20 "report.json"
    (sample_args "warn")
  = ([PrintedError (ValueError "missing run_end event")], Ok 2).
Proof. vm_compute; reflexivity. Qed.

(** A standard output that is closed: the report is written, the first
    [print] raises, and the exit code is 2. *)
Example closed_stdout_exit_code :
  exists report,
    build_report sample_load sample_read (sample_args "warn") = Ok report
    /\ main sample_load sample_read quiet_write closed_print quiet_print_error
         20 "report.json" (sample_args "warn")
       = ([Wrote "report.json" report;
           PrintedError (ValueError "I/O operation on closed file.")],
          Ok 2).
Proof. eexists. split; vm_compute; reflexivity. Qed.

(** ** The pipeline never raises past extraction *)

Lemma compare_signatures_shaped (b t : Signature) :
  exists diffs,
    compare_signatures b t = Ok diffs /\ Forall diff_shaped diffs.
Proof.
  eexists. split; [apply compare_signatures_checks|].
  unfold run_end_diffs, run_end_field_diffs, resize_diffs, geometry_diffs,
    frame_count_diffs, length_diffs, final_frame_diffs.
  destruct (final_frame (frames b)) as [[[bc br] bk]|],
    (final_frame (frames t)) as [[[tc tr] tk]|];
    unfold resize_index_diffs, geometry_index_diffs;
    solve_class; constructor.
Qed.

(** Comparing two signatures and classifying the result always returns:
    every diff of the diff engine has a textual class and path, which is
    all the classifier reads. *)
Theorem compare_then_classify_total (b t : Signature) (baseline target : string)
    (rules : list KnownDivergence) :
  exists diffs known unknown,
    compare_signatures b t = Ok diffs
    /\ classify_diffs diffs baseline target rules = Ok (known, unknown)
    /\ (length known + length unknown)%nat = length diffs.
Proof.
  destruct (compare_signatures_shaped b t) as (diffs & Hcmp & Hshaped).
  exists diffs. eexists. eexists.
  split; [exact Hcmp|]. split; [by apply classify_diffs_omap|].
  apply partition_length.
Qed.

(** ** What makes extraction fail *)

(** [_as_int] raises exactly on an infinite float, with [OverflowError]. *)
Theorem as_int_raises_iff (v : json) (e : error) :
  _as_int v = Raise e
  <-> (exists negative, v = JFloat (FInf negative)) /\ e = OverflowError.
Proof.
  split.
  - intros Hraise. split; [|by eapply as_int_raise].
    destruct v as [|b|n|[|neg|num den]|s|l|m]; try discriminate; eauto.
    simpl in Hraise. unfold _as_int, py_int in Hraise.
    destruct (int_of_str s); discriminate.
  - intros [[neg ->] ->]. reflexivity.
Qed.

(** ** One comparison per non-baseline trace *)

Lemma compare_loop_targets (mode baseline : string)
    (rules : list KnownDivergence) (signatures : gmap string Signature)
    (browsers : list string) (st st' : Totals) :
  for_each (compare_one mode baseline rules signatures) browsers st = Ok st' ->
  cmp_target_browser <$> acc_comparisons st'
  = (cmp_target_browser <$> acc_comparisons st)
    ++ filter (fun b => b <> baseline) browsers
  /\ (Forall (fun c => cmp_baseline_browser c = baseline) (acc_comparisons st) ->
      Forall (fun c => cmp_baseline_browser c = baseline) (acc_comparisons st')).
Proof.
  revert st. induction browsers as [|browser browsers IH]; intros st; simpl.
  { intros [= <-]. by rewrite app_nil_r. }
  intros (st1 & Hone & Hrest)%bind_Ok_inv.
  destruct (IH st1 Hrest) as [Htargets Hbase]. rewrite Htargets.
  unfold compare_one in Hone.
  destruct (String.eqb_spec browser baseline) as [->|Hne].
  - injection Hone as <-. by rewrite filter_cons_False by (by intros []).
  - apply bind_Ok_inv in Hone as (bsig & _ & H).
    apply bind_Ok_inv in H as (tsig & _ & H).
    apply bind_Ok_inv in H as (raw & _ & H).
    apply bind_Ok_inv in H as ([known unknown] & _ & H).
    injection H as <-. simpl. rewrite filter_cons_True by done.
    rewrite fmap_app, <- app_assoc. split; [reflexivity|].
    intros Hall. apply Hbase, Forall_app. split; [exact Hall|].
    by repeat constructor.
Qed.

Lemma filter_ne_length (baseline : string) (l : list string) :
  NoDup l -> baseline ∈ l ->
  S (length (filter (fun b => b <> baseline) l)) = length l.
Proof.
  induction 1 as [|x l Hx Hl IH]; intros Hin; [by apply elem_of_nil in Hin|].
  destruct (decide (x = baseline)) as [->|Hne].
  - rewrite filter_cons_False by (by intros []). simpl. f_equal.
    clear IH Hin. induction l as [|y l IH]; [reflexivity|].
    apply not_elem_of_cons in Hx as [Hy Hx].
    apply NoDup_cons in Hl as [_ Hl].
    rewrite filter_cons_True by done. simpl. f_equal. by apply IH.
  - rewrite filter_cons_True by done. simpl. f_equal. apply IH.
    by apply elem_of_cons in Hin as [->|Hin].
Qed.

(** A report holds one comparison for every trace label other than the
    baseline, in the order of the [--trace] arguments, each against the
    baseline: the baseline is never compared with itself, and with [n]
    traces there are [n - 1] comparisons. *)
Theorem one_comparison_per_target
    (load_jsonl : string -> result (list (gmap string json)))
    (read_lines : string -> result (list string))
    (args : Args) (report : Report) :
  build_report load_jsonl read_lines args = Ok report ->
  cmp_target_browser <$> comparisons report
  = filter (fun b => b <> report_baseline_browser report)
      (trace_inputs report).*1
  /\ Forall (fun c => cmp_baseline_browser c = report_baseline_browser report)
       (comparisons report)
  /\ S (length (comparisons report)) = length (trace_inputs report)
  /\ total_comparisons (summary report) = length (comparisons report).
Proof.
  unfold build_report.
  intros (traces & Htraces & H)%bind_Ok_inv.
  apply bind_Ok_inv in H as (baseline_browser & _ & H).
  destruct (bool_decide _) eqn:Hin; [simpl in H|discriminate].
  apply bool_decide_eq_true in Hin.
  apply bind_Ok_inv in H as (known_rules & _ & H).
  apply bind_Ok_inv in H as (signatures & _ & H).
  apply bind_Ok_inv in H as (st & Hloop & H).
  injection H as <-. simpl.
  destruct (compare_loop_targets _ _ _ _ _ _ _ Hloop) as [Htargets Hbase].
  simpl in Htargets. split; [exact Htargets|].
  split; [apply Hbase; constructor|]. split; [|reflexivity].
  rewrite <- (length_fmap cmp_target_browser), Htargets.
  rewrite <- (length_fmap fst ((fun t => (browser t, path t)) <$> traces)).
  apply filter_ne_length; [|exact Hin].
  unfold parse_trace_args in Htraces.
  apply bind_Ok_inv in Htraces as (ts & _ & H).
  destruct (length ts <? 2)%nat; [discriminate|].
  destruct (bool_decide (NoDup (browser <$> ts))) eqn:Hnodup;
    [|discriminate].
  injection H as <-. apply bool_decide_eq_true in Hnodup.
  by rewrite <- list_fmap_compose.
Qed.

Lemma one_comparison_per_target_witness :
  exists report,
    build_report sample_load sample_read (sample_args "warn") = Ok report
    /\ cmp_target_browser <$> comparisons report = ["firefox"; "safari"]
    /\ S (length (comparisons report)) = length (trace_inputs report).
Proof.
  eexists. split; [vm_compute; reflexivity|]. split; [reflexivity|].
  apply (one_comparison_per_target sample_load sample_read
           (sample_args "warn")).
  vm_compute; reflexivity.
Defined.

(** * Further properties of the module *)

(** ** Stripping *)

Lemma rstrip_by_keep (space : ascii -> bool) (c : ascii) (s : string) :
  space c = false ->
  rstrip_by space (String c s) = String c (rstrip_by space s).
Proof. intros Hc. simpl. rewrite Hc. by destruct (rstrip_by space s). Qed.

Lemma rstrip_by_idem (space : ascii -> bool) (s : string) :
  rstrip_by space (rstrip_by space s) = rstrip_by space s.
Proof.
  induction s as [|c s IH]; [reflexivity|]. simpl.
  destruct (rstrip_by space s) as [|d r] eqn:Hr.
  - destruct (space c) eqn:Hc; [reflexivity|]. simpl. by rewrite Hc.
  - simpl in IH |- *. by rewrite IH.
Qed.

Lemma lstrip_by_head (space : ascii -> bool) (s : string) :
  match lstrip_by space s with
  | EmptyString => True
  | String c _ => space c = false
  end.
Proof.
  induction s as [|c s IH]; simpl; [done|].
  destruct (space c) eqn:Hc; [exact IH | exact Hc].
Qed.

Lemma strip_cases (s : string) :
  strip s = EmptyString
  \/ exists c s', strip s = String c s' /\ py_isspace c = false.
Proof.
  unfold strip. pose proof (lstrip_by_head py_isspace s) as Hhead.
  destruct (lstrip_by py_isspace s) as [|c t]; [by left|].
  right. rewrite (rstrip_by_keep _ _ _ Hhead). eauto.
Qed.

Lemma strip_idem (s : string) : strip (strip s) = strip s.
Proof.
  unfold strip. pose proof (lstrip_by_head py_isspace s) as Hhead.
  destruct (lstrip_by py_isspace s) as [|c t]; [reflexivity|].
  rewrite (rstrip_by_keep _ _ _ Hhead). simpl lstrip_by. rewrite Hhead.
  rewrite <- (rstrip_by_keep _ _ _ Hhead). apply rstrip_by_idem.
Qed.

(** ** Loops over numbered lines *)

Section NumberedLoop.

Context {A B : Type}.
Variable body : list B -> nat * A -> result (list B).
Variable emit : A -> list B.
Variable good : A -> Prop.

Hypothesis body_good : forall acc idx x,
  good x -> body acc (idx, x) = Ok (acc ++ emit x).

Lemma numbered_loop_ok (k : nat) (l : list A) (acc : list B) :
  Forall good l ->
  for_each body (zip (seq k (length l)) l) acc
  = Ok (acc ++ concat (emit <$> l)).
Proof using body_good.
  intros Hl. revert k acc.
  induction Hl as [|x l Hx _ IH]; intros k acc; simpl.
  - by rewrite app_nil_r.
  - rewrite (body_good _ _ _ Hx). simpl. rewrite IH. by rewrite <- app_assoc.
Qed.

Lemma numbered_loop_raise (k : nat) (pre post : list A) (bad : A)
    (acc : list B) (e : error) :
  Forall good pre ->
  (forall acc', body acc' ((k + length pre)%nat, bad) = Raise e) ->
  for_each body
    (zip (seq k (length (pre ++ bad :: post))) (pre ++ bad :: post)) acc
  = Raise e.
Proof using body_good.
  intros Hpre Hbad. revert k acc Hbad.
  induction Hpre as [|x pre Hx _ IH]; intros k acc Hbad; simpl.
  - specialize (Hbad acc). rewrite Nat.add_0_r in Hbad. by rewrite Hbad.
  - rewrite (body_good _ _ _ Hx). simpl. apply IH.
    intros acc'. specialize (Hbad acc'). simpl in Hbad.
    by rewrite Nat.add_succ_r in Hbad.
Qed.

End NumberedLoop.

(** ** The rule file as a whole *)

Lemma parse_rule_line_ok (path : string) (rules : list KnownDivergence)
    (idx : nat) (line : string) :
  rule_line_ok line = true ->
  parse_rule_line path rules (idx, line) = Ok (rules ++ rules_of_line line).
Proof.
  unfold rule_line_ok, rules_of_line, is_rule_line, parse_rule_line.
  destruct (str_is_empty (strip line) || startswith (strip line) "#");
    cbn [negb orb]; [intros _; by rewrite app_nil_r|].
  intros Hlen%Nat.leb_le.
  destruct (split tab (strip line)) as [|p0 [|p1 [|p2 [|p3 [|p4 rest]]]]];
    simpl in Hlen; try lia.
  reflexivity.
Qed.

Lemma parse_rule_line_bad (path : string) (rules : list KnownDivergence)
    (idx : nat) (line : string) :
  rule_line_ok line = false ->
  parse_rule_line path rules (idx, line) = Raise (rule_format_error path idx).
Proof.
  unfold rule_line_ok, is_rule_line, parse_rule_line.
  destruct (str_is_empty (strip line) || startswith (strip line) "#");
    cbn [negb orb]; [discriminate|].
  intros Hlen%Nat.leb_gt.
  by rewrite (proj2 (Nat.ltb_lt _ _) Hlen).
Qed.

Lemma rules_of_line_length (line : string) :
  rule_line_ok line = true ->
  length (rules_of_line line) = if is_rule_line line then 1%nat else 0%nat.
Proof.
  unfold rule_line_ok, rules_of_line. destruct (is_rule_line line);
    cbn [negb orb]; [|reflexivity].
  intros Hlen%Nat.leb_le.
  destruct (split tab (strip line)) as [|p0 [|p1 [|p2 [|p3 [|p4 rest]]]]];
    simpl in Hlen; try lia.
  reflexivity.
Qed.

(** Blank lines and comments are skipped and every other line gives one
    rule, in file order; the first line with fewer than five fields stops
    the parse with an error that carries its 1-based line number, the
    skipped lines being counted. *)
Theorem parse_known_divergences_lines (path : string) (lines : list string) :
  (Forall (fun line => rule_line_ok line = true) lines ->
   parse_known_divergences path lines = Ok (concat (rules_of_line <$> lines))
   /\ length (concat (rules_of_line <$> lines))
      = length (filter (fun line => is_rule_line line = true) lines))
  /\ (forall pre bad post,
        lines = pre ++ bad :: post ->
        Forall (fun line => rule_line_ok line = true) pre ->
        rule_line_ok bad = false ->
        parse_known_divergences path lines
        = Raise (rule_format_error path (S (length pre)))).
Proof.
  split.
  - intros Hok. split.
    + unfold parse_known_divergences, enumerate1.
      by rewrite (numbered_loop_ok (parse_rule_line path) rules_of_line
                    (fun line => rule_line_ok line = true)
                    (parse_rule_line_ok path) 1 lines [] Hok).
    + induction Hok as [|line lines Hline _ IH]; [reflexivity|].
      rewrite fmap_cons, concat_cons, length_app, IH,
        (rules_of_line_length _ Hline).
      destruct (is_rule_line line) eqn:Hrule.
      * by rewrite filter_cons_True.
      * rewrite filter_cons_False; [done | by rewrite Hrule].
  - intros pre bad post -> Hpre Hbad.
    unfold parse_known_divergences, enumerate1.
    apply (numbered_loop_raise (parse_rule_line path) rules_of_line
             (fun line => rule_line_ok line = true)
             (parse_rule_line_ok path)); [exact Hpre|].
    intros acc'. by apply parse_rule_line_bad.
Qed.

(** ** The first field of a rule line *)

Lemma str_contains_rev_app (c : ascii) (s1 s2 : string) :
  str_contains c (String.rev_app s1 s2) = str_contains c s1 || str_contains c s2.
Proof.
  revert s2. induction s1 as [|c1 s1 IH]; intros s2; simpl; [reflexivity|].
  rewrite IH. simpl. by destruct (Ascii.eqb c1 c), (str_contains c s1).
Qed.

Lemma split_go_head (sep c : ascii) (cur s : string) :
  str_contains c cur = true ->
  exists a rest, split_go sep cur s = a :: rest /\ str_contains c a = true.
Proof.
  revert cur. induction s as [|c' s IH]; intros cur Hcur; simpl.
  - eexists _, _. split; [reflexivity|].
    unfold String.rev. by rewrite str_contains_rev_app, Hcur.
  - destruct (Ascii.eqb c' sep).
    + eexists _, _. split; [reflexivity|].
      unfold String.rev. by rewrite str_contains_rev_app, Hcur.
    + apply IH. simpl. by rewrite Hcur, orb_true_r.
Qed.

Lemma lstrip_by_contains (space : ascii -> bool) (c : ascii) (s : string) :
  str_contains c s = true -> space c = false ->
  lstrip_by space s <> EmptyString.
Proof.
  intros Hs Hc. induction s as [|c' s IH]; simpl in *; [discriminate|].
  destruct (space c') eqn:Hc'; [|discriminate].
  destruct (Ascii.eqb_spec c' c) as [->|_]; [congruence|]. by apply IH.
Qed.

Lemma strip_contains (c : ascii) (s : string) :
  str_contains c s = true -> py_isspace c = false -> strip s <> EmptyString.
Proof.
  intros Hs Hc. unfold strip.
  pose proof (lstrip_by_head py_isspace s) as Hhead.
  pose proof (lstrip_by_contains _ _ _ Hs Hc) as Hne.
  destruct (lstrip_by py_isspace s) as [|d t]; [done|].
  by rewrite (rstrip_by_keep _ _ _ Hhead).
Qed.

Lemma split_first_field (s : string) :
  strip s <> EmptyString ->
  exists p0 rest,
    split tab (strip s) = p0 :: rest /\ strip p0 <> EmptyString.
Proof.
  intros Hne. destruct (strip_cases s) as [Hs|(c & s' & Hs & Hc)]; [done|].
  rewrite Hs. unfold split. simpl.
  assert (Ascii.eqb c tab = false) as ->.
  { apply Ascii.eqb_neq. intros ->. discriminate. }
  destruct (split_go_head tab c (String c EmptyString) s') as (a & rest & -> & Ha).
  { simpl. by rewrite Ascii.eqb_refl. }
  exists a, rest. split; [reflexivity|]. by eapply strip_contains.
Qed.

(** The whitespace around a rule line, tabs included, is dropped before the
    line is split, so a line and its stripped text parse alike. The first
    field of a line that gives a rule is therefore never blank: the class
    pattern is always that field, stripped, and never the default that
    stands for an empty cell. *)
Theorem rule_line_first_field (path : string) (rules rules' : list KnownDivergence)
    (idx : nat) (line : string) :
  parse_rule_line path rules (idx, line) = Ok rules' ->
  parse_rule_line path rules (idx, strip line) = Ok rules'
  /\ (rules' = rules
      \/ exists p0 rest rule,
           split tab (strip line) = p0 :: rest
           /\ strip p0 <> EmptyString
           /\ rules' = rules ++ [rule]
           /\ class_pattern rule = strip p0).
Proof.
  intros Hparse. split.
  { unfold parse_rule_line in *. by rewrite strip_idem. }
  unfold parse_rule_line in Hparse.
  destruct (str_is_empty (strip line)) eqn:Hempty; simpl in Hparse.
  { left. by injection Hparse. }
  destruct (startswith (strip line) "#"); [left; by injection Hparse|].
  destruct (split_first_field line) as (p0 & rest & Hsplit & Hp0).
  { by destruct (strip line). }
  rewrite Hsplit in Hparse.
  destruct (length (p0 :: rest) <? 5)%nat; [discriminate|].
  destruct rest as [|p1 [|p2 [|p3 [|p4 rest]]]]; try discriminate.
  injection Hparse as <-. right. eexists p0, _, _.
  split; [exact Hsplit|]. split; [exact Hp0|]. split; [reflexivity|].
  simpl. unfold or_star. by destruct (strip p0).
Qed.

Lemma rule_line_first_field_witness :
  parse_rule_line "known.tsv" [] (1%nat, strip shifted_line)
  = Ok [{| class_pattern := "firefox*"; left_browser_pattern := "chrome*";
           right_browser_pattern := "frames.*"; path_pattern := "cadence";
           rationale := "see the tracker" |}].
Proof.
  apply (rule_line_first_field "known.tsv" [] _ 1 shifted_line).
  vm_compute; reflexivity.
Defined.

(** ** Trace files *)

Lemma first_false_split {A : Type} (f : A -> bool) (l : list A) :
  Forall (fun x => f x = true) l
  \/ exists pre bad post,
       l = pre ++ bad :: post
       /\ Forall (fun x => f x = true) pre /\ f bad = false.
Proof.
  induction l as [|x l IH]; [left; constructor|].
  destruct (f x) eqn:Hx.
  - destruct IH as [Hall|(pre & bad & post & -> & Hpre & Hbad)].
    + left. by constructor.
    + right. exists (x :: pre), bad, post. repeat split; [|done]. by constructor.
  - right. exists [], x, l. by repeat split.
Qed.

Lemma load_line_ok (json_loads : string -> loads_outcome) (path : string)
    (events : list (gmap string json)) (idx : nat) (line : string) :
  trace_line_ok json_loads line = true ->
  load_line json_loads path events (idx, line)
  = Ok (events ++ events_of_line json_loads line).
Proof.
  unfold trace_line_ok, load_line, events_of_line.
  destruct (str_is_empty (strip line)); simpl; [by rewrite app_nil_r|].
  by destruct (json_loads (strip line)) as [[]| |].
Qed.

Lemma load_line_bad (json_loads : string -> loads_outcome) (path : string)
    (events : list (gmap string json)) (idx : nat) (line : string) :
  trace_line_ok json_loads line = false ->
  load_line json_loads path events (idx, line)
  = Raise (trace_line_error json_loads path idx line).
Proof.
  unfold trace_line_ok, load_line, trace_line_error.
  destruct (str_is_empty (strip line)); simpl; [discriminate|].
  by destruct (json_loads (strip line)) as [[]| |].
Qed.

(** [load_jsonl] on the text of a file: blank lines are skipped and every
    other line must decode to a JSON object. The first line that does not
    stops the load with an error that carries its 1-based line number,
    blank lines counted. Otherwise the events are the objects in file
    order, and a file without any is rejected as empty: a list that is
    returned is never empty. *)
Theorem load_jsonl_lines (json_loads : string -> loads_outcome)
    (path text : string) :
  (Forall (fun line => trace_line_ok json_loads line = true) (splitlines text) ->
   load_jsonl_text json_loads path text
   = if nonempty (concat (events_of_line json_loads <$> splitlines text))
     then Ok (concat (events_of_line json_loads <$> splitlines text))
     else Raise (ValueError (path +:+ ": JSONL is empty")))
  /\ (forall pre bad post,
        splitlines text = pre ++ bad :: post ->
        Forall (fun line => trace_line_ok json_loads line = true) pre ->
        trace_line_ok json_loads bad = false ->
        load_jsonl_text json_loads path text
        = Raise (trace_line_error json_loads path (S (length pre)) bad))
  /\ (forall events,
        load_jsonl_text json_loads path text = Ok events ->
        events <> []
        /\ Forall (fun line => trace_line_ok json_loads line = true)
             (splitlines text)
        /\ events = concat (events_of_line json_loads <$> splitlines text)).
Proof.
  assert (Forall (fun line => trace_line_ok json_loads line = true)
            (splitlines text) ->
          load_jsonl_text json_loads path text
          = if nonempty (concat (events_of_line json_loads <$> splitlines text))
            then Ok (concat (events_of_line json_loads <$> splitlines text))
            else Raise (ValueError (path +:+ ": JSONL is empty"))) as Hgood.
  { intros Hok. unfold load_jsonl_text, enumerate1.
    rewrite (numbered_loop_ok (load_line json_loads path)
               (events_of_line json_loads)
               (fun line => trace_line_ok json_loads line = true)
               (load_line_ok json_loads path) 1 _ [] Hok).
    simpl. by destruct (concat _). }
  assert (forall pre bad post,
            splitlines text = pre ++ bad :: post ->
            Forall (fun line => trace_line_ok json_loads line = true) pre ->
            trace_line_ok json_loads bad = false ->
            load_jsonl_text json_loads path text
            = Raise (trace_line_error json_loads path (S (length pre)) bad))
    as Hbad.
  { intros pre bad post Hsplit Hpre Hbad. unfold load_jsonl_text, enumerate1.
    rewrite Hsplit.
    rewrite (numbered_loop_raise (load_line json_loads path)
               (events_of_line json_loads)
               (fun line => trace_line_ok json_loads line = true)
               (load_line_ok json_loads path) 1 pre post bad []
               (trace_line_error json_loads path (S (length pre)) bad) Hpre);
      [reflexivity|].
    intros acc'. by apply load_line_bad. }
  split; [exact Hgood|]. split; [exact Hbad|].
  intros events Hload.
  destruct (first_false_split (trace_line_ok json_loads) (splitlines text))
    as [Hall|(pre & bad & post & Hsplit & Hpre & Hb)].
  - rewrite (Hgood Hall) in Hload.
    destruct (concat (events_of_line json_loads <$> splitlines text)) eqn:Hev;
      simpl in Hload; [discriminate|].
    injection Hload as <-. by repeat split.
  - by rewrite (Hbad pre bad post Hsplit Hpre Hb) in Hload.
Qed.

Lemma load_jsonl_lines_witness :
  load_jsonl_text sample_loads "chrome.jsonl" sample_trace_text
  = Ok [resize_event (JInt 80) (JInt 24) "k0"; run_end_event "passed" (JInt 0)]
  /\ load_jsonl_text sample_loads "chrome.jsonl" bad_trace_text
     = Raise (ValueError "chrome.jsonl:3: expected JSON object per line").
Proof.
  split.
  - rewrite (proj1 (load_jsonl_lines sample_loads "chrome.jsonl"
                      sample_trace_text)); [vm_compute; reflexivity|].
    repeat constructor.
  - rewrite (proj1 (proj2 (load_jsonl_lines sample_loads "chrome.jsonl"
                             bad_trace_text))
               ["{resize}"; "   "] "[]" []);
      [vm_compute; reflexivity | vm_compute; reflexivity
      | repeat constructor | vm_compute; reflexivity].
Defined.

(** ** The [--trace] arguments *)

Lemma split_first_Some (sep : ascii) (s a b : string) :
  split_first sep s = Some (a, b)
  <-> s = a +:+ String sep b /\ str_contains sep a = false.
Proof.
  revert a. induction s as [|c s IH]; intros a; simpl.
  - split; [discriminate|]. intros [H _]. by destruct a.
  - destruct (Ascii.eqb_spec c sep) as [->|Hne].
    + split.
      * by intros [= <- <-].
      * intros [H Ha]. destruct a as [|c' a]; simpl in *.
        { by injection H as <-. }
        injection H as <- _. by rewrite Ascii.eqb_refl in Ha.
    + destruct (split_first sep s) as [[a' b']|] eqn:Hs; simpl.
      * split.
        -- intros [= <- <-]. destruct (proj1 (IH a') eq_refl) as [-> Ha].
           simpl. split; [reflexivity|].
           by rewrite (proj2 (Ascii.eqb_neq c sep) Hne).
        -- intros [H Ha]. destruct a as [|c' a]; simpl in *.
           { by injection H as ->. }
           injection H as <- H. apply orb_false_elim in Ha as [_ Ha].
           by injection (proj2 (IH a) (conj H Ha)) as -> ->.
      * split; [discriminate|]. intros [H Ha].
        destruct a as [|c' a]; simpl in *.
        { by injection H as ->. }
        injection H as <- H. apply orb_false_elim in Ha as [_ Ha].
        by pose proof (proj2 (IH a) (conj H Ha)).
Qed.

Lemma parse_trace_arg_Ok (traces traces' : list TraceInput) (raw : string) :
  parse_trace_arg traces raw = Ok traces'
  <-> exists t, traces' = traces ++ [t] /\ trace_of_arg raw t.
Proof.
  unfold parse_trace_arg, trace_of_arg. split.
  - destruct (split_first "=" raw) as [[b p]|] eqn:Hsplit; [|discriminate].
    apply split_first_Some in Hsplit as [-> Hb].
    destruct (str_is_empty (strip b)) eqn:He; [discriminate|].
    intros [= <-]. eexists. split; [reflexivity|].
    exists b, p. simpl. repeat split; [done|]. by destruct (strip b).
  - intros ([tb tp] & -> & b & p & -> & Hb & Hlabel & Hpath & Hne).
    simpl in *. subst.
    rewrite (proj2 (split_first_Some "=" _ b p) (conj eq_refl Hb)).
    by destruct (strip b).
Qed.

Lemma parse_trace_loop (raw_items : list string) (acc traces : list TraceInput) :
  for_each parse_trace_arg raw_items acc = Ok traces
  <-> exists new, traces = acc ++ new /\ Forall2 trace_of_arg raw_items new.
Proof.
  revert acc. induction raw_items as [|raw raw_items IH]; intros acc; simpl.
  - split.
    + intros [= <-]. exists []. by rewrite app_nil_r.
    + intros (new & -> & ->%Forall2_nil_inv_l). by rewrite app_nil_r.
  - split.
    + intros (acc1 & Hone & Hrest)%bind_Ok_inv.
      apply parse_trace_arg_Ok in Hone as (t & -> & Ht).
      apply IH in Hrest as (new & -> & Hnew).
      exists (t :: new). rewrite <- app_assoc. split; [done | by constructor].
    + intros (new & -> & Hnew).
      apply Forall2_cons_inv_l in Hnew as (t & new' & Ht & Hnew' & ->).
      rewrite (proj2 (parse_trace_arg_Ok acc (acc ++ [t]) raw)) by eauto.
      simpl. apply IH. exists new'. by rewrite <- app_assoc.
Qed.

(** [parse_trace_args] succeeds exactly when every argument reads
    [label=path] with a non-empty label, there are at least two, and the
    labels are pairwise distinct; labels and paths are stripped, the label
    ends at the first ["="] and the path keeps any later one. The traces
    come in the order of the arguments, one for each. *)
Theorem parse_trace_args_Ok (raw_items : list string) (traces : list TraceInput) :
  parse_trace_args raw_items = Ok traces
  <-> Forall2 trace_of_arg raw_items traces
      /\ (2 <= length traces)%nat
      /\ NoDup (browser <$> traces).
Proof.
  unfold parse_trace_args. split.
  - intros (ts & Hloop & H)%bind_Ok_inv.
    apply parse_trace_loop in Hloop as (new & -> & Hnew). simpl in H.
    destruct (length new <? 2)%nat eqn:Hlen; [discriminate|].
    destruct (bool_decide (NoDup (browser <$> new))) eqn:Hdup;
      [|discriminate].
    injection H as <-. apply Nat.ltb_ge in Hlen.
    by apply bool_decide_eq_true in Hdup.
  - intros (Hall & Hlen & Hdup).
    rewrite (proj2 (parse_trace_loop raw_items [] traces)) by eauto.
    simpl. rewrite (proj2 (Nat.ltb_ge _ _) Hlen).
    by rewrite bool_decide_eq_true_2.
Qed.

Lemma parse_trace_args_Ok_witness :
  Forall2 trace_of_arg
    ["chrome=chrome.jsonl"; " safari = runs/a=b.jsonl "]
    [{| browser := "chrome"; path := "chrome.jsonl" |};
     {| browser := "safari"; path := "runs/a=b.jsonl" |}].
Proof.
  apply (proj1 (parse_trace_args_Ok
                  ["chrome=chrome.jsonl"; " safari = runs/a=b.jsonl "] _)).
  vm_compute; reflexivity.
Defined.

(** ** The comparison in the other direction *)

Lemma swap_diff_record (c p : string) (e a : value) (d : string) :
  swap_expected_actual (diff_record c p e a d) = diff_record c p a e d.
Proof.
  unfold swap_expected_actual.
  replace (diff_record c p e a d !! "expected") with (Some e) by reflexivity.
  replace (diff_record c p e a d !! "actual") with (Some a) by reflexivity.
  apply map_eq. intros k. unfold diff_record.
  destruct (decide (k = "expected")) as [->|He];
    [by rewrite lookup_insert_eq|rewrite lookup_insert_ne by done].
  destruct (decide (k = "actual")) as [->|Ha];
    [by rewrite lookup_insert_eq|rewrite lookup_insert_ne by done].
  destruct (decide (k = "class")) as [->|Hc]; [reflexivity|].
  rewrite !(lookup_insert_ne _ "class") by done.
  destruct (decide (k = "path")) as [->|Hp]; [reflexivity|].
  rewrite !(lookup_insert_ne _ "path") by done.
  rewrite !(lookup_insert_ne _ "expected") by done.
  rewrite !(lookup_insert_ne _ "actual") by done. reflexivity.
Qed.

Lemma swap_diff_if (c1 c2 : bool) (cl p : string) (e a : value) (d : string) :
  c1 = c2 ->
  diff_if c1 (diff_record cl p a e d)
  = swap_expected_actual <$> diff_if c2 (diff_record cl p e a d).
Proof. intros ->. destruct c2; simpl; [by rewrite swap_diff_record | done]. Qed.

Lemma bool_decide_sym {A : Type} `{EqDecision A} (x y : A) :
  bool_decide (x = y) = bool_decide (y = x).
Proof. by apply bool_decide_ext. Qed.

Lemma swap_per_index {A : Type}
    (check : nat -> A -> A -> list (gmap string value)) (idx : nat)
    (l1 l2 : list A) :
  (forall i x y, check i y x = swap_expected_actual <$> check i x y) ->
  per_index_diffs check idx l2 l1
  = swap_expected_actual <$> per_index_diffs check idx l1 l2.
Proof.
  intros Hcheck. revert idx l2.
  induction l1 as [|x l1 IH]; intros idx [|y l2]; simpl; try reflexivity.
  by rewrite fmap_app, Hcheck, IH.
Qed.

Lemma swap_length_diffs {A : Type} (cl p d : string) (l1 l2 : list A) :
  length_diffs cl p d l2 l1
  = swap_expected_actual <$> length_diffs cl p d l1 l2.
Proof. unfold length_diffs. apply swap_diff_if. f_equal. apply bool_decide_sym. Qed.

(** Exchanging baseline and target gives the same diffs, in the same order,
    with [expected] and [actual] exchanged: the number of diffs, their
    classes and their paths do not depend on which trace is the baseline. *)
Theorem compare_signatures_swap (b t : Signature) :
  exists diffs,
    compare_signatures b t = Ok diffs
    /\ compare_signatures t b = Ok (swap_expected_actual <$> diffs).
Proof.
  eexists. split; [apply compare_signatures_checks|].
  rewrite compare_signatures_checks. f_equal.
  rewrite !fmap_app.
  f_equal; [|f_equal; [|f_equal; [|f_equal]]].
  - unfold run_end_diffs. rewrite !fmap_app.
    f_equal; [|f_equal]; unfold run_end_field_diffs; apply swap_diff_if;
      f_equal; apply bool_decide_sym.
  - unfold resize_diffs. rewrite fmap_app. f_equal; [apply swap_length_diffs|].
    apply swap_per_index. intros i x y. unfold resize_index_diffs.
    rewrite fmap_app. f_equal; apply swap_diff_if; f_equal;
      apply bool_decide_ext; split; (by intros [-> ->]) || (by intros ->).
  - unfold geometry_diffs. rewrite fmap_app. f_equal; [apply swap_length_diffs|].
    apply swap_per_index. intros i x y. unfold geometry_index_diffs.
    apply swap_diff_if. f_equal. apply bool_decide_sym.
  - apply swap_length_diffs.
  - unfold final_frame_diffs.
    destruct (final_frame (frames b)) as [[[bc br] bk]|],
      (final_frame (frames t)) as [[[tc tr] tk]|]; try reflexivity.
    rewrite fmap_app. f_equal; apply swap_diff_if; f_equal;
      apply bool_decide_ext; split; (by intros [-> ->]) || (by intros ->).
Qed.

(** ** When two signatures compare equal *)

Lemma diff_if_nil (differ : bool) (d : gmap string value) :
  diff_if differ d = [] <-> differ = false.
Proof. by destruct differ. Qed.

Lemma negb_decide_false (P : Prop) `{Decision P} :
  negb (bool_decide P) = false <-> P.
Proof. rewrite negb_false_iff. apply bool_decide_eq_true. Qed.

Lemma per_index_nil {A : Type}
    (check : nat -> A -> A -> list (gmap string value)) (idx : nat)
    (l1 l2 : list A) :
  (forall i x y, check i x y = [] <-> x = y) ->
  length l1 = length l2 ->
  per_index_diffs check idx l1 l2 = [] <-> l1 = l2.
Proof.
  intros Hcheck. revert idx l2.
  induction l1 as [|x l1 IH]; intros idx [|y l2] Hlen; simpl in *;
    try done.
  rewrite app_nil, Hcheck, (IH (S idx) l2) by lia.
  split; [by intros [-> ->] | by intros [= -> ->]].
Qed.

Lemma length_diffs_nil {A : Type} (cl p d : string) (l1 l2 : list A) :
  length_diffs cl p d l1 l2 = [] <-> length l1 = length l2.
Proof. unfold length_diffs. by rewrite diff_if_nil, negb_decide_false. Qed.

Lemma resize_index_diffs_nil (idx : nat) (x y : ResizeInput) :
  resize_index_diffs idx x y = [] <-> x = y.
Proof.
  unfold resize_index_diffs.
  rewrite app_nil, !diff_if_nil, !negb_decide_false.
  destruct x, y; simpl. split; [by intros [[-> ->] ->] | by intros [= -> -> ->]].
Qed.

Lemma geometry_index_diffs_nil (idx : nat) (x y : string) :
  geometry_index_diffs idx x y = [] <-> x = y.
Proof.
  unfold geometry_index_diffs. by rewrite diff_if_nil, negb_decide_false.
Qed.

Lemma final_frame_None (fs : list Frame) : final_frame fs = None <-> fs = [].
Proof.
  unfold final_frame. destruct fs as [|f fs] using rev_ind; [done|].
  rewrite last_snoc. simpl. split; [done|]. by intros ?%app_nil_r_inv.
Qed.

Lemma final_frame_diffs_nil (b t : list Frame) :
  length b = length t ->
  final_frame_diffs b t = [] <-> final_frame b = final_frame t.
Proof.
  intros Hlen. unfold final_frame_diffs.
  destruct (final_frame b) as [[[bc br] bk]|] eqn:Hb,
    (final_frame t) as [[[tc tr] tk]|] eqn:Ht.
  - rewrite app_nil, !diff_if_nil, !negb_decide_false.
    split; [by intros [[-> ->] ->] | by intros [= -> -> ->]].
  - apply final_frame_None in Ht as ->. destruct b; [done|discriminate].
  - apply final_frame_None in Hb as ->. destruct t; [done|discriminate].
  - done.
Qed.

(** Two signatures give no diff exactly when they agree on the status, the
    outcome and the reported frame count of the run_end summary, on the
    resize inputs, on the geometry sequence, on the number of frames, and on
    the geometry and hash_key of the last frame. Nothing else can produce a
    diff: not the checksum chain, not the output hash, not a frame hash,
    not a frame before the last. *)
Theorem compare_signatures_empty (b t : Signature) :
  compare_signatures b t = Ok [] <-> compared_fields b = compared_fields t.
Proof.
  rewrite compare_signatures_checks. unfold compared_fields.
  split.
  - intros [= H].
    apply app_nil in H as [Hrun H]. apply app_nil in H as [Hresize H].
    apply app_nil in H as [Hgeom H]. apply app_nil in H as [Hcount Hfinal].
    unfold run_end_diffs in Hrun.
    apply app_nil in Hrun as [Hs Hrun]. apply app_nil in Hrun as [Ho Hf].
    unfold run_end_field_diffs in Hs, Ho, Hf.
    apply diff_if_nil, negb_decide_false in Hs, Ho, Hf.
    injection Hs as Hs. injection Ho as Ho. injection Hf as Hf.
    unfold resize_diffs in Hresize. apply app_nil in Hresize as [Hrl Hri].
    apply length_diffs_nil in Hrl.
    apply (per_index_nil _ _ _ _ resize_index_diffs_nil Hrl) in Hri.
    unfold geometry_diffs in Hgeom. apply app_nil in Hgeom as [Hgl Hgi].
    apply length_diffs_nil in Hgl.
    apply (per_index_nil _ _ _ _ geometry_index_diffs_nil Hgl) in Hgi.
    apply length_diffs_nil in Hcount.
    apply (final_frame_diffs_nil _ _ Hcount) in Hfinal.
    by rewrite Hs, Ho, Hf, Hri, Hgi, Hcount, Hfinal.
  - intros [= Hs Ho Hf Hri Hgi Hcount Hfinal]. f_equal.
    repeat (apply app_nil; split).
    + unfold run_end_field_diffs. apply diff_if_nil, negb_decide_false.
      change (VStr (status (run_end b)) = VStr (status (run_end t))).
      by rewrite Hs.
    + unfold run_end_field_diffs. apply diff_if_nil, negb_decide_false.
      change (VStr (outcome (run_end b)) = VStr (outcome (run_end t))).
      by rewrite Ho.
    + unfold run_end_field_diffs. apply diff_if_nil, negb_decide_false.
      change (VInt (frames_reported (run_end b))
              = VInt (frames_reported (run_end t))).
      by rewrite Hf.
    + apply length_diffs_nil. by rewrite Hri.
    + apply per_index_nil; [apply resize_index_diffs_nil| |]; by rewrite Hri.
    + apply length_diffs_nil. by rewrite Hgi.
    + apply per_index_nil; [apply geometry_index_diffs_nil| |]; by rewrite Hgi.
    + by apply length_diffs_nil.
    + by apply final_frame_diffs_nil.
Qed.

Lemma compare_signatures_empty_witness :
  compare_signatures storm_signature storm_signature_variant = Ok [].
Proof.
  apply (proj2 (compare_signatures_empty storm_signature
                  storm_signature_variant)).
  vm_compute; reflexivity.
Defined.
